(** * State tree migration (package nv9, file top.go)

    A shallow embedding of [MigrateStateTree] and its helpers.  The
    sequential helpers ([nilMigrator.MigrateState], [migrateOneActor]) are
    plain functions.  The goroutine pipeline of [MigrateStateTree] is a
    labelled transition function on an explicit state: a label names the
    goroutine that moves and, for a [select], the branch taken; a schedule is
    a list of labels. *)

From Stdlib Require Import ZArith Lia.
From stdpp Require Import base option list gmap sets strings.

(** ** Values of the imported Go packages *)

(** go-cid: a [Cid] wraps a string; [Undef] is its zero value. *)
Module cid.
Abbreviation Cid := string (only parsing).
Definition Undef : Cid := "".
End cid.

(** go-address: an [Address] wraps a string. *)
Module address.
Abbreviation Address := string (only parsing).
End address.

(** go-state-types/abi: [TokenAmount] is a big integer, [ChainEpoch] an int64. *)
Module abi.
Abbreviation TokenAmount := Z (only parsing).
Abbreviation ChainEpoch := Z (only parsing).
End abi.

(** Values of Go's [error] interface that the file builds or passes on; a nil
    error is [None] of [option error]. *)
Inductive error : Type :=
| InvalidConfig (workers : N)
    (* xerrors.Errorf("invalid migration config with %d workers", ...) *)
| MigrationFailed (name : string) (addr : address.Address) (cause : error)
    (* xerrors.Errorf("state migration failed for %s actor, addr %s: %w", ...) *)
| Canceled            (* context.Canceled *)
| DeadlineExceeded    (* context.DeadlineExceeded *)
| External (msg : string).  (* an error made by a collaborator *)

(** A Go call either returns or panics. *)
Inductive outcome (A : Type) : Type :=
| Returns (a : A)
| Panics (msg : string).
Arguments Returns {A} a.
Arguments Panics {A} msg.

(** The [(value, error)] result of a collaborator whose value is only used
    when the error is nil. *)
Inductive result (A : Type) : Type :=
| Ok (a : A)
| Err (e : error).
Arguments Ok {A} a.
Arguments Err {A} e.

(** cbor.IpldStore: content-addressed blocks. *)
Abbreviation IpldStore := (gmap string string) (only parsing).

(** context.Context, as far as the file observes it: the value of [ctx.Err()]
    ([None] while the context is not done). *)
Record Context := { ctx_Err : option error }.

(** states2.Actor and states3.Actor: the record of one actor in the tree. *)
Module states2.
Record Actor := {
  Code : cid.Cid;
  Head : cid.Cid;
  CallSeqNum : Z;             (* uint64 *)
  Balance : abi.TokenAmount }.
Abbreviation Tree := (gmap string Actor) (only parsing).
End states2.

Module states3.
Record Actor := {
  Code : cid.Cid;
  Head : cid.Cid;
  CallSeqNum : Z;             (* uint64 *)
  Balance : abi.TokenAmount }.
Abbreviation Tree := (gmap string Actor) (only parsing).
End states3.

(** ** Types of top.go *)

Record Config := {
  MaxWorkers : N;          (* uint *)
  JobQueueSize : N;        (* uint *)
  ResultQueueSize : N;     (* uint *)
  ProgressLogPeriod : Z    (* time.Duration: int64 nanoseconds *) }.

Record StateMigrationInput := {
  address : address.Address;
  balance : abi.TokenAmount;
  head : cid.Cid;
  priorEpoch : abi.ChainEpoch }.

Record StateMigrationResult := {
  NewCodeCID : cid.Cid;
  NewHead : cid.Cid }.

(** The interface [StateMigration].  [MigrateState] may read and write the
    store, so the store is threaded; it returns a result pointer and an
    error, either of which may be nil. *)
Record StateMigration := {
  MigrateState :
    Context → IpldStore → StateMigrationInput →
    IpldStore * (option StateMigrationResult * option error) }.

(** Migrator which preserves the head CID and provides a fixed result code CID. *)
Record nilMigrator := { OutCodeCID : cid.Cid }.

Definition nilMigrator_MigrateState (n : nilMigrator)
    (_ : Context) (store : IpldStore) (in_ : StateMigrationInput)
  : IpldStore * (option StateMigrationResult * option error) :=
  (store,
   (Some {| NewCodeCID := n.(OutCodeCID); NewHead := in_.(head) |}, None)).

(** [nilMigrator] implements [StateMigration]. *)
Definition nilMigrator_StateMigration (n : nilMigrator) : StateMigration :=
  {| MigrateState := nilMigrator_MigrateState n |}.
Coercion nilMigrator_StateMigration : nilMigrator >-> StateMigration.

(** A nil interface value in the embedded field is [None]. *)
Record migrationInput := {
  mi_Address : address.Address;
  mi_Actor : states2.Actor;
  mi_StateMigration : option StateMigration }.

Record migrationResult := {
  mr_Address : address.Address;
  mr_Actor : states3.Actor }.

(** ** Collaborators that are not part of top.go *)

(** Package builtin (v2): the code CIDs of the eleven builtin actors and the
    name of an actor by its code. *)
Module builtin2.
Class Actors := {
  AccountActorCodeID : cid.Cid;
  CronActorCodeID : cid.Cid;
  InitActorCodeID : cid.Cid;
  MultisigActorCodeID : cid.Cid;
  PaymentChannelActorCodeID : cid.Cid;
  RewardActorCodeID : cid.Cid;
  StorageMarketActorCodeID : cid.Cid;
  StorageMinerActorCodeID : cid.Cid;
  StoragePowerActorCodeID : cid.Cid;
  SystemActorCodeID : cid.Cid;
  VerifiedRegistryActorCodeID : cid.Cid;
  ActorNameByCode : cid.Cid → string }.
End builtin2.

(** Package builtin (v3): the code CIDs the nil migrators write. *)
Module builtin3.
Class Actors := {
  AccountActorCodeID : cid.Cid;
  CronActorCodeID : cid.Cid;
  RewardActorCodeID : cid.Cid;
  SystemActorCodeID : cid.Cid }.
End builtin3.

(** The migrators of the sibling files of package nv9. *)
Class Migrators := {
  initMigrator : StateMigration;
  multisigMigrator : StateMigration;
  paychMigrator : StateMigration;
  marketMigrator : StateMigration;
  minerMigrator : StateMigration;
  powerMigrator : StateMigration;
  verifregMigrator : StateMigration }.

(** The state tree storage (packages states of v2 and v3, over adt):
    [LoadTree] and [ForEach] of the input tree, [NewTree], [SetActor] and
    [Flush] of the output tree.  A tree is the finite map it stores.
    [ForEach t] is the walk of [t] in its native order: the records the
    visitor is called on, and the error the walk itself ends with, if any.
    [SetActor] returns the updated tree. *)
Class Storage := {
  LoadTree : IpldStore → cid.Cid → result states2.Tree;
  ForEach : states2.Tree → list (address.Address * states2.Actor) * option error;
  NewTree : IpldStore → result states3.Tree;
  SetActor : states3.Tree → address.Address → states3.Actor → result states3.Tree;
  Flush : IpldStore → states3.Tree → cid.Cid * option error }.

(** What the pipeline relies on from the storage: a walk visits records of
    the tree only, and all of them when it ends without error; a new tree is
    empty; a successful [SetActor] is the map insertion; the root that [Flush]
    returns is determined by the content of the tree. *)
Class StorageContract `{Storage} : Prop := {
  ForEach_sound : ∀ (t : states2.Tree) a x,
    (a, x) ∈ (ForEach t).1 → t !! a = Some x;
  ForEach_complete : ∀ (t : states2.Tree) a x,
    (ForEach t).2 = None → t !! a = Some x → (a, x) ∈ (ForEach t).1;
  NewTree_empty : ∀ s (t : states3.Tree), NewTree s = Ok t → t = ∅;
  SetActor_insert : ∀ (t t' : states3.Tree) a x,
    SetActor t a x = Ok t' → t' = <[a:=x]> t;
  Flush_content : ∀ s s' (t : states3.Tree) c c',
    Flush s t = (c, None) → Flush s' t = (c', None) → c = c' }.

(** ** migrateOneActor *)

Definition nil_dereference : string :=
  "invalid memory address or nil pointer dereference".

Definition migrateOneActor `{builtin2.Actors}
    (ctx : Context) (store : IpldStore) (input : migrationInput)
    (priorEpoch : abi.ChainEpoch)
  : outcome (IpldStore * result migrationResult) :=
  let actorIn := input.(mi_Actor) in
  let addr := input.(mi_Address) in
  match input.(mi_StateMigration) with
  | None => Panics nil_dereference
  | Some m =>
    let '(store', (result, err)) :=
      m.(MigrateState) ctx store
        {| address := addr;
           balance := actorIn.(states2.Balance);
           head := actorIn.(states2.Head);
           priorEpoch := priorEpoch |} in
    match err with
    | Some e =>
      Returns (store',
               Err (MigrationFailed
                      (builtin2.ActorNameByCode actorIn.(states2.Code)) addr e))
    | None =>
      match result with
      | None => Panics nil_dereference
      | Some result =>
        (* Set up new actor record with the migrated state. *)
        Returns (store',
                 Ok {| mr_Address := addr; (* Unchanged *)
                       mr_Actor :=
                         {| states3.Code := result.(NewCodeCID);
                            states3.Head := result.(NewHead);
                            states3.CallSeqNum :=
                              actorIn.(states2.CallSeqNum); (* Unchanged *)
                            states3.Balance :=
                              actorIn.(states2.Balance) (* Unchanged *) |} |})
      end
    end
  end.

(** ** Machine integers *)

Definition uint32 (z : Z) : Z := (z mod 2 ^ 32)%Z.
Definition int64 (z : Z) : Z := ((z + 2 ^ 63) mod 2 ^ 64 - 2 ^ 63)%Z.

(** atomic.AddUint32: the new value. *)
Definition AddUint32 (v delta : Z) : Z := uint32 (v + delta).

(** The progress monitor's [pendingNow := jobsNow - doneNow] on uint32. *)
Definition pendingNow (jobsNow doneNow : Z) : Z := uint32 (jobsNow - doneNow).

(** ** The logger *)

(** One call of [log.Log], by its format string; durations and rates are
    not kept. *)
Inductive LogEntry : Type :=
| LogCreatingJobs (root : cid.Cid)
| LogDoneCreatingJobs (jobCount : Z) (root : cid.Cid)
| LogWorkerDone (workerId : nat)
| LogStartedWorkers (workers : N)
| LogMonitorDone
| LogProgress (jobsNow doneNow pending : Z)
| LogAllWorkersDone
| LogWriterStarted
| LogWriterWrote (resultCount : Z)
| LogAllDone (doneCount : Z).

(** ** Channels and the errgroup *)

Record chan (A : Type) := mkChan { buf : list A; closed : bool }.
Arguments mkChan {A} buf closed.
Arguments buf {A} c.
Arguments closed {A} c.

Definition make {A : Type} : chan A := mkChan [] false.

Definition send_on_closed : string := "send on closed channel".
Definition close_of_closed : string := "close of closed channel".

(** errgroup.Group.Go: a goroutine of the group returns [err].  The first
    non-nil error is kept and cancels the group's context. *)
Definition grp_return (err ctx grp : option error)
  : option error * option error :=
  match err, grp with
  | Some e, None => (Some (default Canceled ctx), Some e)
  | _, _ => (ctx, grp)
  end.
Arguments grp_return : simpl never.

(** ** The goroutines of MigrateStateTree *)

(** Where each goroutine stands.  The job producer: before its first log
    line, inside [ForEach] with the records still to visit, blocked in the
    [select] that publishes a job, about to count the job, returned. *)
Inductive ProducerPC : Type :=
| PStart
| PIter (rest : list (address.Address * states2.Actor))
| PSend (nextInput : migrationInput)
        (rest : list (address.Address * states2.Actor))
| PCount (rest : list (address.Address * states2.Actor))
| PDone.

(** A worker: receiving from [inputCh], about to call [migrateOneActor],
    blocked in the [select] that publishes the result, about to count it,
    returned. *)
Inductive WorkerPC : Type :=
| WRecv
| WRun (input : migrationInput)
| WSend (result : migrationResult)
| WCount
| WDone.

(** The goroutine that closes [resultCh]. *)
Inductive CloserPC : Type := CWait | CDone.

(** The result writer, with its local [resultCount]. *)
Inductive WriterPC : Type :=
| WrStart
| WrRecv (resultCount : Z)
| WrSet (result : migrationResult) (resultCount : Z)
| WrDone.

(** The progress monitor: not started, waiting in its [select], between the
    snapshot of [jobCount] and that of [doneCount], returned. *)
Inductive MonitorPC : Type :=
| MOff
| MWait
| MRead (jobsNow : Z)
| MDone.

(** The calling goroutine after it has started the others: before its log
    line, then in [grp.Wait]. *)
Inductive MainPC : Type := MainStarted | MainWait.

Record State := mkState {
  st_ctx : option error;            (* ctx.Err() of the group's context *)
  st_grp : option error;            (* the group's first error *)
  st_store : IpldStore;
  st_actorsOut : states3.Tree;
  st_inputCh : chan migrationInput;
  st_resultCh : chan migrationResult;
  st_workersFinished : bool;        (* workersFinished is closed *)
  st_jobCount : Z;                  (* uint32 *)
  st_doneCount : Z;                 (* uint32 *)
  st_log : list LogEntry;
  st_main : MainPC;
  st_producer : ProducerPC;
  st_workers : list WorkerPC;
  st_closer : CloserPC;
  st_writer : WriterPC;
  st_monitor : MonitorPC }.

(** The moves of the pipeline. *)
Inductive Action : Type :=
| AMain                      (* the caller logs the number of workers *)
| AProducer                  (* next statement, or a send into the buffer *)
| AProducerHandoff (w : nat) (* a send received at once by idle worker w *)
| AProducerCancelled         (* the select takes ctx.Done *)
| AWorker (w : nat)          (* next statement, or a send into the buffer *)
| AWorkerHandoff (w : nat)   (* a send received at once by the writer *)
| AWorkerCancelled (w : nat) (* the select takes ctx.Done *)
| ACloser
| AWriter
| AMonitor                   (* the timer fires, then the log line *)
| AMonitorStop               (* workersFinished or ctx.Done *)
| ACancel (deadline : bool). (* the caller's context is cancelled *)

Definition is_WDone (pc : WorkerPC) : bool :=
  match pc with WDone => true | _ => false end.

Section Pipeline.
Context `{builtin2.Actors} `{Storage}.

(** The variables of [MigrateStateTree] that its goroutines capture. *)
Variable cfg : Config.
Variable priorEpoch : abi.ChainEpoch.
Variable actorsRootIn : cid.Cid.
Variable actorsIn : states2.Tree.
Variable migrations : gmap cid.Cid StateMigration.
Variable deferredCodeIDs : gset cid.Cid.

(** Iterate all actors in old state root to generate migration inputs for
    each non-deferred actor. *)
Definition step_producer (s : State) : option (outcome State) :=
  let 'mkState ctx grp store out ich rch wf jc dc lg mn p ws cl wr mo := s in
  match p with
  | PStart =>
    Some (Returns (mkState ctx grp store out ich rch wf jc dc
                     (lg ++ [LogCreatingJobs actorsRootIn])
                     mn (PIter (ForEach actorsIn).1) ws cl wr mo))
  | PIter ((addr, actorIn) :: rest) =>
    if decide (actorIn.(states2.Code) ∈ deferredCodeIDs) then
      (* Deferred for explicit migration later. *)
      Some (Returns (mkState ctx grp store out ich rch wf jc dc lg
                       mn (PIter rest) ws cl wr mo))
    else
      let nextInput :=
        {| mi_Address := addr;
           mi_Actor := actorIn;
           mi_StateMigration := migrations !! actorIn.(states2.Code) |} in
      Some (Returns (mkState ctx grp store out ich rch wf jc dc lg
                       mn (PSend nextInput rest) ws cl wr mo))
  | PIter [] =>
    match (ForEach actorsIn).2 with
    | Some err =>
      let '(ctx', grp') := grp_return (Some err) ctx grp in
      Some (Returns (mkState ctx' grp' store out (mkChan (buf ich) true) rch
                       wf jc dc lg mn PDone ws cl wr mo))
    | None =>
      Some (Returns (mkState ctx grp store out (mkChan (buf ich) true) rch
                       wf jc dc
                       (lg ++ [LogDoneCreatingJobs jc actorsRootIn])
                       mn PDone ws cl wr mo))
    end
  | PSend nextInput rest =>
    if closed ich then Some (Panics send_on_closed)
    else if decide (N.of_nat (length (buf ich)) < cfg.(JobQueueSize))%N then
      Some (Returns (mkState ctx grp store out
                       (mkChan (buf ich ++ [nextInput]) false) rch
                       wf jc dc lg mn (PCount rest) ws cl wr mo))
    else None
  | PCount rest =>
    Some (Returns (mkState ctx grp store out ich rch wf (AddUint32 jc 1) dc
                     lg mn (PIter rest) ws cl wr mo))
  | PDone => None
  end.

(** [inputCh <- nextInput] when worker [w] is blocked receiving and nothing
    is queued: the job goes to the worker directly (the only way to send
    on an unbuffered channel). *)
Definition step_producer_handoff (w : nat) (s : State)
  : option (outcome State) :=
  let 'mkState ctx grp store out ich rch wf jc dc lg mn p ws cl wr mo := s in
  match p, ws !! w, buf ich with
  | PSend nextInput rest, Some WRecv, [] =>
    if closed ich then Some (Panics send_on_closed)
    else
      Some (Returns (mkState ctx grp store out ich rch wf jc dc lg
                       mn (PCount rest) (<[w:=WRun nextInput]> ws) cl wr mo))
  | _, _, _ => None
  end.

(** [case <-ctx.Done(): return ctx.Err()] in the producer; the deferred
    [close(inputCh)] runs on the way out. *)
Definition step_producer_cancelled (s : State) : option (outcome State) :=
  let 'mkState ctx grp store out ich rch wf jc dc lg mn p ws cl wr mo := s in
  match p, ctx with
  | PSend _ _, Some err =>
    let '(ctx', grp') := grp_return (Some err) ctx grp in
    Some (Returns (mkState ctx' grp' store out (mkChan (buf ich) true) rch
                     wf jc dc lg mn PDone ws cl wr mo))
  | _, _ => None
  end.

(** Worker threads run migrations on inputs. *)
Definition step_worker (w : nat) (s : State) : option (outcome State) :=
  let 'mkState ctx grp store out ich rch wf jc dc lg mn p ws cl wr mo := s in
  match ws !! w with
  | None => None
  | Some WRecv =>
    (* for input := range inputCh *)
    match buf ich with
    | input :: b =>
      Some (Returns (mkState ctx grp store out (mkChan b (closed ich)) rch
                       wf jc dc lg mn p (<[w:=WRun input]> ws) cl wr mo))
    | [] =>
      if closed ich then
        Some (Returns (mkState ctx grp store out ich rch wf jc dc
                         (lg ++ [LogWorkerDone w])
                         mn p (<[w:=WDone]> ws) cl wr mo))
      else None
    end
  | Some (WRun input) =>
    match migrateOneActor {| ctx_Err := ctx |} store input priorEpoch with
    | Panics msg => Some (Panics msg)
    | Returns (store', Err err) =>
      let '(ctx', grp') := grp_return (Some err) ctx grp in
      Some (Returns (mkState ctx' grp' store' out ich rch wf jc dc lg
                       mn p (<[w:=WDone]> ws) cl wr mo))
    | Returns (store', Ok result) =>
      Some (Returns (mkState ctx grp store' out ich rch wf jc dc lg
                       mn p (<[w:=WSend result]> ws) cl wr mo))
    end
  | Some (WSend result) =>
    if closed rch then Some (Panics send_on_closed)
    else if decide (N.of_nat (length (buf rch)) < cfg.(ResultQueueSize))%N
    then
      Some (Returns (mkState ctx grp store out ich
                       (mkChan (buf rch ++ [result]) false)
                       wf jc dc lg mn p (<[w:=WCount]> ws) cl wr mo))
    else None
  | Some WCount =>
    Some (Returns (mkState ctx grp store out ich rch wf jc (AddUint32 dc 1)
                     lg mn p (<[w:=WRecv]> ws) cl wr mo))
  | Some WDone => None
  end.

(** [resultCh <- result] when the writer is blocked receiving and nothing
    is queued. *)
Definition step_worker_handoff (w : nat) (s : State)
  : option (outcome State) :=
  let 'mkState ctx grp store out ich rch wf jc dc lg mn p ws cl wr mo := s in
  match ws !! w, wr, buf rch with
  | Some (WSend result), WrRecv n, [] =>
    if closed rch then Some (Panics send_on_closed)
    else
      Some (Returns (mkState ctx grp store out ich rch wf jc dc lg
                       mn p (<[w:=WCount]> ws) cl (WrSet result n) mo))
  | _, _, _ => None
  end.

(** [case <-ctx.Done(): return ctx.Err()] in a worker. *)
Definition step_worker_cancelled (w : nat) (s : State)
  : option (outcome State) :=
  let 'mkState ctx grp store out ich rch wf jc dc lg mn p ws cl wr mo := s in
  match ws !! w, ctx with
  | Some (WSend _), Some err =>
    let '(ctx', grp') := grp_return (Some err) ctx grp in
    Some (Returns (mkState ctx' grp' store out ich rch wf jc dc lg
                     mn p (<[w:=WDone]> ws) cl wr mo))
  | _, _ => None
  end.

(** Close result channel when workers are done sending to it:
    [workerWg.Wait()] returns once every worker has returned. *)
Definition step_closer (s : State) : option (outcome State) :=
  let 'mkState ctx grp store out ich rch wf jc dc lg mn p ws cl wr mo := s in
  match cl with
  | CWait =>
    if forallb is_WDone ws then
      if closed rch || wf then Some (Panics close_of_closed)
      else
        Some (Returns (mkState ctx grp store out ich (mkChan (buf rch) true)
                         true jc dc (lg ++ [LogAllWorkersDone])
                         mn p ws CDone wr mo))
    else None
  | CDone => None
  end.

(** Insert migrated records in output state tree and accumulators. *)
Definition step_writer (s : State) : option (outcome State) :=
  let 'mkState ctx grp store out ich rch wf jc dc lg mn p ws cl wr mo := s in
  match wr with
  | WrStart =>
    Some (Returns (mkState ctx grp store out ich rch wf jc dc
                     (lg ++ [LogWriterStarted]) mn p ws cl (WrRecv 0) mo))
  | WrRecv n =>
    (* for result := range resultCh *)
    match buf rch with
    | result :: b =>
      Some (Returns (mkState ctx grp store out ich (mkChan b (closed rch))
                       wf jc dc lg mn p ws cl (WrSet result n) mo))
    | [] =>
      if closed rch then
        Some (Returns (mkState ctx grp store out ich rch wf jc dc
                         (lg ++ [LogWriterWrote n]) mn p ws cl WrDone mo))
      else None
    end
  | WrSet result n =>
    match SetActor out result.(mr_Address) result.(mr_Actor) with
    | Err err =>
      let '(ctx', grp') := grp_return (Some err) ctx grp in
      Some (Returns (mkState ctx' grp' store out ich rch wf jc dc lg
                       mn p ws cl WrDone mo))
    | Ok out' =>
      Some (Returns (mkState ctx grp store out' ich rch wf jc dc lg
                       mn p ws cl (WrRecv (int64 (n + 1))) mo))
    end
  | WrDone => None
  end.

(** Monitor the job queue: a tick snapshots [jobCount], the next move
    snapshots [doneCount] and logs. *)
Definition step_monitor (s : State) : option (outcome State) :=
  let 'mkState ctx grp store out ich rch wf jc dc lg mn p ws cl wr mo := s in
  match mo with
  | MWait =>
    Some (Returns (mkState ctx grp store out ich rch wf jc dc lg
                     mn p ws cl wr (MRead jc)))
  | MRead jobsNow =>
    let doneNow := dc in
    Some (Returns (mkState ctx grp store out ich rch wf jc dc
                     (lg ++ [LogProgress jobsNow doneNow
                               (pendingNow jobsNow doneNow)])
                     mn p ws cl wr MWait))
  | _ => None
  end.

Definition step_monitor_stop (s : State) : option (outcome State) :=
  let 'mkState ctx grp store out ich rch wf jc dc lg mn p ws cl wr mo := s in
  match mo with
  | MWait =>
    if wf || bool_decide (is_Some ctx) then
      Some (Returns (mkState ctx grp store out ich rch wf jc dc
                       (lg ++ [LogMonitorDone]) mn p ws cl wr MDone))
    else None
  | _ => None
  end.

Definition step_main (s : State) : option (outcome State) :=
  let 'mkState ctx grp store out ich rch wf jc dc lg mn p ws cl wr mo := s in
  match mn with
  | MainStarted =>
    Some (Returns (mkState ctx grp store out ich rch wf jc dc
                     (lg ++ [LogStartedWorkers cfg.(MaxWorkers)])
                     MainWait p ws cl wr mo))
  | MainWait => None
  end.

(** The context handed in by the caller is cancelled, or its deadline
    passes, while the group's context is not yet done. *)
Definition step_cancel (deadline : bool) (s : State)
  : option (outcome State) :=
  let 'mkState ctx grp store out ich rch wf jc dc lg mn p ws cl wr mo := s in
  match ctx with
  | None =>
    Some (Returns (mkState
                     (Some (if deadline then DeadlineExceeded else Canceled))
                     grp store out ich rch wf jc dc lg mn p ws cl wr mo))
  | Some _ => None
  end.

(** One move; [None] when the goroutine cannot make it in [s]. *)
Definition step (a : Action) (s : State) : option (outcome State) :=
  match a with
  | AMain => step_main s
  | AProducer => step_producer s
  | AProducerHandoff w => step_producer_handoff w s
  | AProducerCancelled => step_producer_cancelled s
  | AWorker w => step_worker w s
  | AWorkerHandoff w => step_worker_handoff w s
  | AWorkerCancelled w => step_worker_cancelled w s
  | ACloser => step_closer s
  | AWriter => step_writer s
  | AMonitor => step_monitor s
  | AMonitorStop => step_monitor_stop s
  | ACancel deadline => step_cancel deadline s
  end.

(** A schedule from [s]: [None] when some move is not possible where the
    schedule asks for it; a panic ends the process. *)
Fixpoint run (sched : list Action) (s : State) : option (outcome State) :=
  match sched with
  | [] => Some (Returns s)
  | a :: sched' =>
    match step a s with
    | None => None
    | Some (Panics msg) => Some (Panics msg)
    | Some (Returns s') => run sched' s'
    end
  end.

(** The state once every goroutine has been started. *)
Definition spawned (ctx : Context) (store : IpldStore)
    (actorsOut : states3.Tree) : State :=
  {| st_ctx := ctx.(ctx_Err);
     st_grp := None;
     st_store := store;
     st_actorsOut := actorsOut;
     st_inputCh := make;
     st_resultCh := make;
     st_workersFinished := false;
     st_jobCount := 0;
     st_doneCount := 0;
     st_log := [];
     st_main := MainStarted;
     st_producer := PStart;
     st_workers := replicate (N.to_nat cfg.(MaxWorkers)) WRecv;
     st_closer := CWait;
     st_writer := WrStart;
     st_monitor := if decide (0 < cfg.(ProgressLogPeriod))%Z
                   then MWait else MOff |}.

(** [grp.Wait()] returns: the caller has logged and every goroutine of the
    group has returned. *)
Definition joined (s : State) : bool :=
  match s.(st_main), s.(st_producer), s.(st_closer), s.(st_writer) with
  | MainWait, PDone, CDone, WrDone => forallb is_WDone s.(st_workers)
  | _, _, _, _ => false
  end.

(** The rest of [MigrateStateTree] from the goroutines on, for the variables
    above: the value returned and the lines logged. *)
Definition pipeline (ctx : Context) (store : IpldStore)
    (actorsOut : states3.Tree) (sched : list Action)
  : option (outcome ((cid.Cid * option error) * list LogEntry)) :=
  match run sched (spawned ctx store actorsOut) with
  | None => None
  | Some (Panics msg) => Some (Panics msg)
  | Some (Returns s) =>
    if joined s then
      match s.(st_grp) with
      | Some err => Some (Returns ((cid.Undef, Some err), s.(st_log)))
      | None =>
        Some (Returns (Flush s.(st_store) s.(st_actorsOut),
                       s.(st_log) ++ [LogAllDone s.(st_doneCount)]))
      end
    else None
  end.
End Pipeline.

(** ** MigrateStateTree *)

(** A Go map literal: the entries are stored in order, a later entry
    replacing an earlier one with the same key. *)
Definition map_literal {V : Type} (entries : list (cid.Cid * V))
  : gmap cid.Cid V :=
  foldl (λ m kv, <[kv.1:=kv.2]> m) ∅ entries.

Section MigrateStateTree.
Context `{builtin2.Actors} `{builtin3.Actors} `{Migrators} `{Storage}.

(** Maps prior version code CIDs to migration functions. *)
Definition migrations : gmap cid.Cid StateMigration :=
  map_literal [
    (builtin2.AccountActorCodeID,
      nilMigrator_StateMigration
        {| OutCodeCID := builtin3.AccountActorCodeID |});
    (builtin2.CronActorCodeID,
      nilMigrator_StateMigration
        {| OutCodeCID := builtin3.CronActorCodeID |});
    (builtin2.InitActorCodeID, initMigrator);
    (builtin2.MultisigActorCodeID, multisigMigrator);
    (builtin2.PaymentChannelActorCodeID, paychMigrator);
    (builtin2.RewardActorCodeID,
      nilMigrator_StateMigration
        {| OutCodeCID := builtin3.RewardActorCodeID |});
    (builtin2.StorageMarketActorCodeID, marketMigrator);
    (builtin2.StorageMinerActorCodeID, minerMigrator);
    (builtin2.StoragePowerActorCodeID, powerMigrator);
    (builtin2.SystemActorCodeID,
      nilMigrator_StateMigration
        {| OutCodeCID := builtin3.SystemActorCodeID |});
    (builtin2.VerifiedRegistryActorCodeID, verifregMigrator) ].

(** Set of prior version code CIDs for actors to defer during iteration,
    for explicit migration afterwards.  (None.) *)
Definition deferredCodeIDs : gset cid.Cid := ∅.

Definition incomplete_specification : string :=
  "incomplete migration specification".

(** The code CIDs of the builtin actors of v2: the valid codes of the input
    tree. *)
Definition builtin2_codes : list cid.Cid := [
  builtin2.AccountActorCodeID;
  builtin2.CronActorCodeID;
  builtin2.InitActorCodeID;
  builtin2.MultisigActorCodeID;
  builtin2.PaymentChannelActorCodeID;
  builtin2.RewardActorCodeID;
  builtin2.StorageMarketActorCodeID;
  builtin2.StorageMinerActorCodeID;
  builtin2.StoragePowerActorCodeID;
  builtin2.SystemActorCodeID;
  builtin2.VerifiedRegistryActorCodeID ].

(** [MigrateStateTree] from the completeness check on, for given values of
    its two registry variables.  The result is the returned pair and the
    lines logged; [None] when [sched] is not a complete schedule of the
    goroutines. *)
Definition MigrateStateTree_from
    (migrations : gmap cid.Cid StateMigration)
    (deferredCodeIDs : gset cid.Cid)
    (ctx : Context) (store : IpldStore) (actorsRootIn : cid.Cid)
    (priorEpoch : abi.ChainEpoch) (cfg : Config) (sched : list Action)
  : option (outcome ((cid.Cid * option error) * list LogEntry)) :=
  if decide (size migrations + size deferredCodeIDs ≠ 11) then
    Some (Panics incomplete_specification)
  else
    (* Load input and output state trees *)
    match LoadTree store actorsRootIn with
    | Err err => Some (Returns ((cid.Undef, Some err), []))
    | Ok actorsIn =>
      match NewTree store with
      | Err err => Some (Returns ((cid.Undef, Some err), []))
      | Ok actorsOut =>
        pipeline cfg priorEpoch actorsRootIn actorsIn
          migrations deferredCodeIDs ctx store actorsOut sched
      end
    end.

(** The whole of [MigrateStateTree], for given values of its two registry
    variables. *)
Definition MigrateStateTree_with
    (migrations : gmap cid.Cid StateMigration)
    (deferredCodeIDs : gset cid.Cid)
    (ctx : Context) (store : IpldStore) (actorsRootIn : cid.Cid)
    (priorEpoch : abi.ChainEpoch) (cfg : Config) (sched : list Action)
  : option (outcome ((cid.Cid * option error) * list LogEntry)) :=
  if decide (cfg.(MaxWorkers) ≤ 0)%N then
    Some (Returns ((cid.Undef, Some (InvalidConfig cfg.(MaxWorkers))), []))
  else
    MigrateStateTree_from migrations deferredCodeIDs
      ctx store actorsRootIn priorEpoch cfg sched.

(** Migrates the filecoin state tree starting from the global state tree
    and upgrading all actor state. *)
Definition MigrateStateTree
    (ctx : Context) (store : IpldStore) (actorsRootIn : cid.Cid)
    (priorEpoch : abi.ChainEpoch) (cfg : Config) (sched : list Action)
  : option (outcome ((cid.Cid * option error) * list LogEntry)) :=
  MigrateStateTree_with migrations deferredCodeIDs
    ctx store actorsRootIn priorEpoch cfg sched.
End MigrateStateTree.

(** ** A small concrete world

    Instances of the collaborators to run the definitions on: code CIDs named
    after the actors, migrators that only rewrite the code CID (the multisig
    one fails on a head called [bad], the miner one writes a block to the
    store), and a storage that keeps trees in memory. *)
Module Sample.
#[export] Instance actors2 : builtin2.Actors := {|
  builtin2.AccountActorCodeID := "fil/2/account";
  builtin2.CronActorCodeID := "fil/2/cron";
  builtin2.InitActorCodeID := "fil/2/init";
  builtin2.MultisigActorCodeID := "fil/2/multisig";
  builtin2.PaymentChannelActorCodeID := "fil/2/paymentchannel";
  builtin2.RewardActorCodeID := "fil/2/reward";
  builtin2.StorageMarketActorCodeID := "fil/2/storagemarket";
  builtin2.StorageMinerActorCodeID := "fil/2/storageminer";
  builtin2.StoragePowerActorCodeID := "fil/2/storagepower";
  builtin2.SystemActorCodeID := "fil/2/system";
  builtin2.VerifiedRegistryActorCodeID := "fil/2/verifiedregistry";
  builtin2.ActorNameByCode c := c |}.

#[export] Instance actors3 : builtin3.Actors := {|
  builtin3.AccountActorCodeID := "fil/3/account";
  builtin3.CronActorCodeID := "fil/3/cron";
  builtin3.RewardActorCodeID := "fil/3/reward";
  builtin3.SystemActorCodeID := "fil/3/system" |}.

Definition recode (code : cid.Cid) : StateMigration :=
  {| MigrateState _ store in_ :=
       (store, (Some {| NewCodeCID := code; NewHead := in_.(head) |}, None)) |}.

Definition failing_on_bad (code : cid.Cid) : StateMigration :=
  {| MigrateState _ store in_ :=
       if decide (in_.(head) = "bad") then
         (store, (None, Some (External "bad state")))
       else
         (store, (Some {| NewCodeCID := code; NewHead := in_.(head) |}, None)) |}.

Definition writing (code : cid.Cid) : StateMigration :=
  {| MigrateState _ store in_ :=
       (<[in_.(head) +:+ "'" := "migrated"]> store,
        (Some {| NewCodeCID := code; NewHead := in_.(head) +:+ "'" |},
         None)) |}.

#[export] Instance migrators : Migrators := {|
  initMigrator := recode "fil/3/init";
  multisigMigrator := failing_on_bad "fil/3/multisig";
  paychMigrator := recode "fil/3/paymentchannel";
  marketMigrator := recode "fil/3/storagemarket";
  minerMigrator := writing "fil/3/storageminer";
  powerMigrator := recode "fil/3/storagepower";
  verifregMigrator := recode "fil/3/verifiedregistry" |}.

Definition actor (code head : cid.Cid) (seq bal : Z) : states2.Actor :=
  {| states2.Code := code; states2.Head := head;
     states2.CallSeqNum := seq; states2.Balance := bal |}.

(** The trees of the store: [root1] holds an account and a miner, [root2] an
    account and an actor of an unknown code, [root3] the latter alone,
    [root4] an account and a multisig whose migration fails. *)
Definition tree1 : states2.Tree :=
  <["A1" := actor "fil/2/account" "S1" 0 5]>
    (<["A2" := actor "fil/2/storageminer" "S2" 2 0]> ∅).

Definition tree2 : states2.Tree :=
  <["A3" := actor "fil/2/account" "S1" 0 5]>
    (<["A1" := actor "fil/9/unknown" "S3" 1 1]> ∅).

Definition tree3 : states2.Tree :=
  <["A3" := actor "fil/9/unknown" "S3" 1 1]> ∅.

Definition tree4 : states2.Tree :=
  <["A1" := actor "fil/2/account" "S1" 0 5]>
    (<["A2" := actor "fil/2/multisig" "bad" 2 0]> ∅).

Definition root_of (t : states3.Tree) : cid.Cid :=
  foldr (λ kv acc, kv.1 +:+ ":" +:+ kv.2.(states3.Code) +:+ ":"
                   +:+ kv.2.(states3.Head) +:+ ";" +:+ acc)
        "" (map_to_list t).

#[export] Instance storage : Storage := {|
  LoadTree _ root :=
    if decide (root = "root1") then Ok tree1
    else if decide (root = "root2") then Ok tree2
    else if decide (root = "root3") then Ok tree3
    else if decide (root = "root4") then Ok tree4
    else Err (External "not found");
  ForEach t := (map_to_list t, None);
  NewTree _ := Ok ∅;
  SetActor t a x := Ok (<[a:=x]> t);
  Flush _ t := (root_of t, None) |}.

#[export] Instance storage_contract : StorageContract.
Proof.
  split; simpl.
  - intros t a x Hin. by apply elem_of_map_to_list in Hin.
  - intros t a x _ Hl. by apply elem_of_map_to_list.
  - by intros s t [= <-].
  - by intros t t' a x [= <-].
  - by intros s s' t c c' [= <-] [= <-].
Qed.

Definition background : Context := {| ctx_Err := None |}.

Definition monitored (workers jobs results : N) : Config :=
  {| MaxWorkers := workers; JobQueueSize := jobs;
     ResultQueueSize := results; ProgressLogPeriod := 1000000000 |}.

Definition config (workers jobs results : N) : Config :=
  {| MaxWorkers := workers; JobQueueSize := jobs;
     ResultQueueSize := results; ProgressLogPeriod := 0 |}.
(** Schedules.  [unbuffered] runs [root1] to the end with one worker and
    unbuffered queues, [buffered] with two workers and queues of four. *)
Definition unbuffered : list Action := [
  AMain; AWriter; AProducer;
  AProducer; AProducerHandoff 0; AProducer;
  AWorker 0; AWorkerHandoff 0; AWorker 0; AWriter;
  AProducer; AProducerHandoff 0; AProducer; AProducer;
  AWorker 0; AWorkerHandoff 0; AWorker 0; AWriter;
  AWorker 0; ACloser; AWriter ].

Definition buffered : list Action := [
  AMain; AProducer;
  AProducer; AProducer; AProducer;
  AProducer; AProducer; AProducer; AProducer;
  AWorker 0; AWorker 1; AWorker 1; AWorker 0;
  AWorker 1; AWorker 0; AWorker 0; AWorker 1;
  AWorker 0; AWorker 1; ACloser;
  AWriter; AWriter; AWriter; AWriter; AWriter; AWriter ].

(** On [root4] with two workers: both jobs are handed to the workers and the
    producer returns; then worker 1 runs the multisig job, whose capability
    fails. *)
Definition both_handed : list Action := [
  AMain; AWriter; AProducer;
  AProducer; AProducerHandoff 0; AProducer;
  AProducer; AProducerHandoff 1; AProducer; AProducer ].

(** After [both_handed]: worker 0 runs its job, the caller's context is
    cancelled, and worker 0 returns on it instead of publishing. *)
Definition cancelled_first : list Action :=
  both_handed ++ [AWorker 0; ACancel false; AWorkerCancelled 0].

(** After the failure of worker 1 in [both_handed]: worker 0 runs its job and
    returns on the cancelled context, and the others return. *)
Definition wind_down : list Action :=
  [AWorker 0; AWorkerCancelled 0; ACloser; AWriter].

(** On [root2] with one worker: the account is migrated and written, then the
    job of the unknown actor is handed to the worker. *)
Definition account_written : list Action := [
  AMain; AWriter; AProducer;
  AProducer; AProducerHandoff 0; AProducer;
  AWorker 0; AWorkerHandoff 0; AWorker 0; AWriter;
  AProducer; AProducerHandoff 0 ].

(** On [root3] with one worker: the job of the unknown actor is handed to the
    worker. *)
Definition unknown_handed : list Action :=
  [AMain; AProducer; AProducer; AProducerHandoff 0].

(** On [root1] with one worker and the monitor: the worker counts its first
    result before the producer counts the job, and the monitor takes its
    snapshot of the jobs created in between. *)
Definition done_before_created : list Action := [
  AProducer; AProducer; AProducerHandoff 0; AWriter;
  AWorker 0; AWorkerHandoff 0; AWorker 0; AMonitor ].
End Sample.


(** ** The counters

    The two counters, and the monitor's snapshot of the first, stay within
    uint32. *)
Definition in_uint32 (z : Z) : Prop := (0 ≤ z < 2 ^ 32)%Z.

Definition monitor_snapshot (mo : MonitorPC) : Z :=
  match mo with MRead jobsNow => jobsNow | _ => 0 end.

Record Counters (s : State) : Prop := {
  counters_jobCount : in_uint32 s.(st_jobCount);
  counters_doneCount : in_uint32 s.(st_doneCount);
  counters_snapshot : in_uint32 (monitor_snapshot s.(st_monitor)) }.

(** ** Accounting for the records in the pipeline

    Where a record of the input tree is while the pipeline runs: not yet
    visited, a job in flight (held by the producer, queued, or held by a
    worker), a result in flight (held by a worker, queued, or held by the
    writer), or in the output tree. *)
Section Accounting.
Context `{builtin2.Actors} `{Storage}.
Variable cfg : Config.
Variable priorEpoch : abi.ChainEpoch.
Variable actorsIn : states2.Tree.
Variable migrations : gmap cid.Cid StateMigration.
Variable deferredCodeIDs : gset cid.Cid.

Definition producer_rest (p : ProducerPC)
  : list (address.Address * states2.Actor) :=
  match p with
  | PStart => (ForEach actorsIn).1
  | PIter rest | PSend _ rest | PCount rest => rest
  | PDone => []
  end.

Definition producer_jobs (p : ProducerPC) : list migrationInput :=
  match p with PSend nextInput _ => [nextInput] | _ => [] end.

Definition worker_jobs (pc : WorkerPC) : list migrationInput :=
  match pc with WRun input => [input] | _ => [] end.

Definition worker_results (pc : WorkerPC) : list migrationResult :=
  match pc with WSend result => [result] | _ => [] end.

Definition writer_results (wr : WriterPC) : list migrationResult :=
  match wr with WrSet result _ => [result] | _ => [] end.

Definition jobs_in_flight (s : State) : list migrationInput :=
  producer_jobs s.(st_producer) ++ buf s.(st_inputCh)
    ++ (s.(st_workers) ≫= worker_jobs).

Definition results_in_flight (s : State) : list migrationResult :=
  (s.(st_workers) ≫= worker_results) ++ buf s.(st_resultCh)
    ++ writer_results s.(st_writer).

(** The addresses of the records of a walk that are not deferred. *)
Definition live_addresses (l : list (address.Address * states2.Actor))
  : gset address.Address :=
  list_to_set ((filter (λ e, e.2.(states2.Code) ∉ deferredCodeIDs) l).*1).

Definition accounted (s : State) : gset address.Address :=
  live_addresses (producer_rest s.(st_producer))
    ∪ list_to_set (mi_Address <$> jobs_in_flight s)
    ∪ list_to_set (mr_Address <$> results_in_flight s)
    ∪ dom s.(st_actorsOut).

(** A job the producer builds for a record of the input tree. *)
Definition is_job (input : migrationInput) : Prop :=
  actorsIn !! input.(mi_Address) = Some input.(mi_Actor)
  ∧ (input.(mi_Actor).(states2.Code) ∉ deferredCodeIDs)
  ∧ input.(mi_StateMigration)
    = (migrations !! input.(mi_Actor).(states2.Code)).

(** A result [migrateOneActor] returns for such a job. *)
Definition is_result (result : migrationResult) : Prop :=
  ∃ input ctx store store',
    is_job input
    ∧ migrateOneActor ctx store input priorEpoch = Returns (store', Ok result).

(** What holds of the pipeline as long as no goroutine has failed. *)
Record Progress (s : State) : Prop := {
  progress_accounted :
    accounted s = live_addresses (ForEach actorsIn).1;
  progress_walk :
    s.(st_producer) = PDone → (ForEach actorsIn).2 = None;
  progress_jobs :
    WDone ∈ s.(st_workers) →
    closed s.(st_inputCh) = true ∧ buf s.(st_inputCh) = [];
  progress_results :
    s.(st_writer) = WrDone →
    closed s.(st_resultCh) = true ∧ buf s.(st_resultCh) = [] }.

(** What holds of every state of the pipeline. *)
Record Inv (s : State) : Prop := {
  inv_workers : length s.(st_workers) = N.to_nat cfg.(MaxWorkers);
  inv_rest : producer_rest s.(st_producer) ⊆ (ForEach actorsIn).1;
  inv_jobs : Forall is_job (jobs_in_flight s);
  inv_results : Forall is_result (results_in_flight s);
  inv_out : ∀ a y,
    s.(st_actorsOut) !! a = Some y →
    is_result {| mr_Address := a; mr_Actor := y |};
  inv_progress : s.(st_grp) = None → Progress s }.

(** The record a capability that does not fail makes of an input record. *)
Definition migrated (m : StateMigration) (ctx : Context) (store : IpldStore)
    (a : address.Address) (x : states2.Actor) (y : states3.Actor) : Prop :=
  ∃ res,
    (m.(MigrateState) ctx store
       (Build_StateMigrationInput a x.(states2.Balance) x.(states2.Head)
          priorEpoch)).2
    = (Some res, None)
    ∧ y = {| states3.Code := res.(NewCodeCID);
             states3.Head := res.(NewHead);
             states3.CallSeqNum := x.(states2.CallSeqNum);
             states3.Balance := x.(states2.Balance) |}.

(** The capabilities of the registry are deterministic: what one returns is
    a function of its input. *)
Definition deterministic_capabilities : Prop :=
  ∀ c m ctx ctx' (store store' : IpldStore) in_,
    migrations !! c = Some m →
    (m.(MigrateState) ctx store in_).2 = (m.(MigrateState) ctx' store' in_).2.
End Accounting.


(** ** Synchronisation of the goroutines *)

(** The moves of the goroutines of the errgroup and of the caller, as opposed
    to those of the monitor and of the caller's context. *)
Definition group_action (a : Action) : bool :=
  match a with
  | AMonitor | AMonitorStop | ACancel _ => false
  | _ => true
  end.

(** How the channels, the group and the goroutines stand to each other. *)
Record Sync (cfg : Config) (s : State) : Prop := {
  sync_workers : length s.(st_workers) = N.to_nat cfg.(MaxWorkers);
  sync_inputCh : closed s.(st_inputCh) = true ↔ s.(st_producer) = PDone;
  sync_resultCh : closed s.(st_resultCh) = true ↔ s.(st_closer) = CDone;
  sync_finished : s.(st_workersFinished) = closed s.(st_resultCh);
  sync_closer :
    s.(st_closer) = CDone → Forall (λ pc, pc = WDone) s.(st_workers);
  sync_cancel : is_Some s.(st_grp) → is_Some s.(st_ctx);
  sync_worker_done :
    WDone ∈ s.(st_workers) →
    is_Some s.(st_grp)
    ∨ (closed s.(st_inputCh) = true ∧ buf s.(st_inputCh) = []);
  sync_writer_done :
    s.(st_writer) = WrDone →
    is_Some s.(st_grp)
    ∨ (closed s.(st_resultCh) = true ∧ buf s.(st_resultCh) = []);
  sync_input_bound :
    (N.of_nat (length (buf s.(st_inputCh))) ≤ cfg.(JobQueueSize))%N;
  sync_result_bound :
    (N.of_nat (length (buf s.(st_resultCh))) ≤ cfg.(ResultQueueSize))%N }.

(** ** A measure of the work left

    Weights for where each goroutine stands and for each job and result
    queued; every move of a goroutine of the group makes the sum smaller. *)
Definition producer_weight (entries : list (address.Address * states2.Actor))
    (p : ProducerPC) : nat :=
  match p with
  | PStart => 9 * length entries + 2
  | PIter rest => 9 * length rest + 1
  | PSend _ rest => 9 * length rest + 9
  | PCount rest => 9 * length rest + 2
  | PDone => 0
  end.

Definition worker_weight (pc : WorkerPC) : nat :=
  match pc with
  | WRecv => 1
  | WRun _ => 6
  | WSend _ => 5
  | WCount => 2
  | WDone => 0
  end.

Definition writer_weight (wr : WriterPC) : nat :=
  match wr with
  | WrStart => 2
  | WrRecv _ => 1
  | WrSet _ _ => 2
  | WrDone => 0
  end.

Definition work_left (entries : list (address.Address * states2.Actor))
    (s : State) : nat :=
  match s.(st_main) with MainStarted => 1 | MainWait => 0 end
  + producer_weight entries s.(st_producer)
  + sum_list_with worker_weight s.(st_workers)
  + 6 * length (buf s.(st_inputCh))
  + 2 * length (buf s.(st_resultCh))
  + match s.(st_closer) with CWait => 1 | CDone => 0 end
  + writer_weight s.(st_writer).


(** ** The progress monitor *)

(** The moves of the progress monitor, and the lines it logs. *)
Definition monitor_action (a : Action) : bool :=
  match a with AMonitor | AMonitorStop => true | _ => false end.

Definition monitor_line (e : LogEntry) : bool :=
  match e with LogProgress _ _ _ | LogMonitorDone => true | _ => false end.

(** A state with the monitor at [mo] and without the lines it has logged. *)
Definition without_monitor (mo : MonitorPC) (s : State) : State :=
  let 'mkState ctx grp store out ich rch wf jc dc lg mn p ws cl wr _ := s in
  mkState ctx grp store out ich rch wf jc dc
    (filter (λ e, monitor_line e = false) lg) mn p ws cl wr mo.

(** A configuration with the progress logs switched off. *)
Definition no_progress_logs (cfg : Config) : Config :=
  {| MaxWorkers := cfg.(MaxWorkers);
     JobQueueSize := cfg.(JobQueueSize);
     ResultQueueSize := cfg.(ResultQueueSize);
     ProgressLogPeriod := 0 |}.

(** ** What the counters count *)

(** The number of records of a walk that are not deferred. *)
Definition live_count (deferredCodeIDs : gset cid.Cid)
    (l : list (address.Address * states2.Actor)) : Z :=
  Z.of_nat
    (length (filter (λ e, e.2.(states2.Code) ∉ deferredCodeIDs) l)).

(** A job the producer has built and not yet published, or not yet
    counted. *)
Definition job_unpublished (p : ProducerPC) : Z :=
  match p with PSend _ _ => 1 | _ => 0 end.

Definition job_uncounted (p : ProducerPC) : Z :=
  match p with PSend _ _ | PCount _ => 1 | _ => 0 end.

(** A job or result a worker holds, and one it has not yet counted as
    done. *)
Definition worker_holds (pc : WorkerPC) : nat :=
  match pc with WRun _ | WSend _ => 1 | _ => 0 end.

Definition worker_uncounted (pc : WorkerPC) : nat :=
  match pc with WRun _ | WSend _ | WCount => 1 | _ => 0 end.

Definition result_unwritten (wr : WriterPC) : Z :=
  match wr with WrSet _ _ => 1 | _ => 0 end.

(** The writer's local [resultCount]. *)
Definition writer_resultCount (wr : WriterPC) : option Z :=
  match wr with
  | WrStart => Some 0%Z
  | WrRecv n | WrSet _ n => Some n
  | WrDone => None
  end.

Section Tally.
Context `{Storage}.
Variable actorsRootIn : cid.Cid.
Variable actorsIn : states2.Tree.
Variable deferredCodeIDs : gset cid.Cid.

(** The records that are not deferred, and of these: the jobs counted as
    created, the jobs counted as done, the results written. *)
Definition jobs_total : Z := live_count deferredCodeIDs (ForEach actorsIn).1.

Definition jobs_visited (s : State) : Z :=
  (jobs_total
   - live_count deferredCodeIDs (producer_rest actorsIn s.(st_producer)))%Z.

Definition jobs_created (s : State) : Z :=
  (jobs_visited s - job_uncounted s.(st_producer))%Z.

Definition jobs_done (s : State) : Z :=
  (jobs_visited s - job_unpublished s.(st_producer)
   - Z.of_nat (length (buf s.(st_inputCh)))
   - Z.of_nat (sum_list_with worker_uncounted s.(st_workers)))%Z.

Definition results_written (s : State) : Z :=
  (jobs_visited s - job_unpublished s.(st_producer)
   - Z.of_nat (length (buf s.(st_inputCh)))
   - Z.of_nat (sum_list_with worker_holds s.(st_workers))
   - Z.of_nat (length (buf s.(st_resultCh)))
   - result_unwritten s.(st_writer))%Z.

(** What the counters hold, and what has been logged of them, as long as no
    goroutine has failed. *)
Record Tally (s : State) : Prop := {
  tally_jobCount : s.(st_jobCount) = uint32 (jobs_created s);
  tally_doneCount : s.(st_doneCount) = uint32 (jobs_done s);
  tally_resultCount :
    ∀ n, writer_resultCount s.(st_writer) = Some n → n = int64 (results_written s);
  tally_jobs_logged :
    s.(st_producer) = PDone →
    LogDoneCreatingJobs (uint32 jobs_total) actorsRootIn ∈ s.(st_log);
  tally_results_logged :
    s.(st_writer) = WrDone →
    LogWriterWrote (int64 jobs_total) ∈ s.(st_log) }.
End Tally.


(** ** Where an error comes from *)

(** What [ctx.Err()] of the group's context can be: the error of the
    caller's context, or what a cancellation or a deadline leaves. *)
Definition context_error (ctx : Context) (e : error) : Prop :=
  ctx.(ctx_Err) = Some e ∨ e = Canceled ∨ e = DeadlineExceeded.

Section Provenance.
Context `{builtin2.Actors} `{Storage}.
Variable priorEpoch : abi.ChainEpoch.
Variable actorsIn : states2.Tree.
Variable migrations : gmap cid.Cid StateMigration.
Variable ctx : Context.

(** The error of the capability of the registry for a record of the input
    tree, as [migrateOneActor] wraps it. *)
Definition capability_error (e : error) : Prop :=
  ∃ a x m ctx' store cause,
    actorsIn !! a = Some x
    ∧ migrations !! x.(states2.Code) = Some m
    ∧ (m.(MigrateState) ctx' store
         (Build_StateMigrationInput a x.(states2.Balance) x.(states2.Head)
            priorEpoch)).2.2
      = Some cause
    ∧ e = MigrationFailed (builtin2.ActorNameByCode x.(states2.Code)) a cause.

(** The errors a goroutine of the group can return. *)
Definition group_error (e : error) : Prop :=
  context_error ctx e
  ∨ (ForEach actorsIn).2 = Some e
  ∨ capability_error e
  ∨ ∃ (out : states3.Tree) a y, SetActor out a y = Err e.

Record Origin (s : State) : Prop := {
  origin_ctx : ∀ e, s.(st_ctx) = Some e → context_error ctx e;
  origin_grp : ∀ e, s.(st_grp) = Some e → group_error e }.
End Provenance.


(** * Proofs *)

Set Warnings "-clear-no-such-hyp".

(** ** Lists, the errgroup and the counters *)

Lemma list_insert_split {A} (l : list A) (i : nat) (x : A) :
  l !! i = Some x →
  ∃ l1 l2, l = l1 ++ x :: l2 ∧ ∀ y, <[i:=y]> l = l1 ++ y :: l2.
Proof.
  intros Hi. exists (take i l), (drop (S i) l). split.
  - by rewrite take_drop_middle.
  - intros y. apply insert_take_drop. by eapply lookup_lt_Some.
Qed.

Lemma replicate_bind_nil {A B} (f : A → list B) n x :
  f x = [] → replicate n x ≫= f = [].
Proof.
  intros Hf. induction n as [|n IH]; [done|].
  change (replicate (S n) x) with (x :: replicate n x).
  by rewrite bind_cons, Hf, IH.
Qed.

Lemma forallb_WDone_jobs ws :
  forallb is_WDone ws = true →
  ws ≫= worker_jobs = [] ∧ ws ≫= worker_results = [].
Proof.
  induction ws as [|pc ws IH]; [done|]. rewrite !bind_cons.
  cbn [forallb]. intros [Hpc Hws]%andb_prop.
  destruct pc; try done. simpl. by apply IH.
Qed.

Lemma forallb_WDone_elem ws :
  forallb is_WDone ws = true → 0 < length ws → WDone ∈ ws.
Proof.
  destruct ws as [|pc ws]; simpl; [lia|]. intros [Hpc _]%andb_prop _.
  destruct pc; try done. by left.
Qed.

Lemma grp_return_err e ctx grp ctx' grp' :
  grp_return (Some e) ctx grp = (ctx', grp') → grp' ≠ None.
Proof. unfold grp_return. destruct grp; intros; simplify_eq; done. Qed.

Lemma in_uint32_AddUint32 v d : in_uint32 (AddUint32 v d).
Proof. unfold in_uint32, AddUint32, uint32. apply Z.mod_pos_bound. lia. Qed.

(** ** Tactics for the case analysis of a move *)

Ltac unfold_inv :=
  try unfold accounted in *;
  try unfold jobs_in_flight in *; try unfold results_in_flight in *;
  simpl in *.

Ltac norm_inv :=
  unfold_inv; rewrite ?bind_app, ?bind_cons in *; simpl in *.

(** A goroutine that returns an error leaves the group failed. *)
Ltac failed_group :=
  match goal with
  | Hg : grp_return (Some _) _ _ = (_, ?g) |- ?g = None → _ =>
    let E := fresh in intros E; by apply grp_return_err in Hg
  end.

Ltac solve_field := first [ done | failed_group ].

Ltac use_progress :=
  match goal with
  | Hp : ?g = None → Progress _ _ _ |- _ =>
    first
      [ match goal with
        | |- g = None → _ =>
          let E := fresh in
          intros E; destruct (Hp E) as [HA HWalk HJ HR]; subst g;
          constructor; norm_inv; try solve_field
        end
      | idtac ];
    clear Hp
  end.

(** The worker that moves splits the list of workers in three. *)
Ltac split_workers :=
  repeat match goal with
  | Hl : ?ws !! ?w = Some ?pc |- _ =>
    let l1 := fresh "l1" in
    let l2 := fresh "l2" in
    let Hins := fresh "Hins" in
    destruct (list_insert_split ws w pc Hl) as (l1 & l2 & -> & Hins);
    rewrite ?Hins in *; clear Hins Hl
  end.

Ltac inv_start :=
  match goal with
  | Hinv : Inv _ _ _ _ _ ?s |- _ =>
    destruct Hinv as [Hw Hrest Hjobs Hres Hout Hprog];
    destruct s as [ctx grp store out [ibuf iclosed] [rbuf rclosed]
                   wf jc dc lg mn p ws cl wr mo]
  end;
  simpl in *;
  repeat case_match; simplify_eq;
  split_workers;
  constructor; norm_inv;
  try solve_field;
  use_progress.

(** The fields a move leaves as they were, up to where the records sit. *)
Ltac set_goal :=
  match goal with
  | HA : _ = live_addresses _ (ForEach _).1
    |- _ = live_addresses _ (ForEach _).1 =>
    rewrite <- HA; clear; set_solver
  | Hf : Forall ?P _ |- Forall ?P _ =>
    rewrite Forall_forall in Hf |- *; clear -Hf; set_solver
  | Hl : length _ = ?n |- length _ = ?n =>
    rewrite ?length_app in *; simpl in *; done
  | HJ : WDone ∈ _ → _ |- WDone ∈ _ → _ =>
    let Hd := fresh in
    intros Hd; destruct HJ as [? ?]; [clear -Hd; set_solver|];
    simplify_eq; done
  | HR : ?P → _ ∧ _ |- ?P → _ =>
    let Hd := fresh in
    intros Hd; destruct (HR Hd) as [? ?]; simplify_eq; done
  | |- [] ⊆ _ => apply list_subseteq_nil
  end.

Ltac step_cases :=
  match goal with
  | Hs : step _ _ _ _ _ _ ?a ?s = Some _ |- _ =>
    destruct s as [? ? ? ? [? ?] [? ?] ? ? ? ? ? ? ? ? ? ?];
    destruct a; simpl in Hs;
    unfold step_main, step_producer, step_producer_handoff,
      step_producer_cancelled, step_worker, step_worker_handoff,
      step_worker_cancelled, step_closer, step_writer, step_monitor,
      step_monitor_stop, step_cancel, grp_return in Hs;
    simpl in *; repeat case_match; simplify_eq; simpl in *
  end.

(** ** The invariant of the pipeline *)

Section Invariant.
Context `{builtin2.Actors} `{Storage} `{!StorageContract}.
Variable cfg : Config.
Variable priorEpoch : abi.ChainEpoch.
Variable actorsRootIn : cid.Cid.
Variable actorsIn : states2.Tree.
Variable migrations : gmap cid.Cid StateMigration.
Variable deferredCodeIDs : gset cid.Cid.

#[local] Abbreviation step :=
  (step cfg priorEpoch actorsRootIn actorsIn migrations deferredCodeIDs).
#[local] Abbreviation run :=
  (run cfg priorEpoch actorsRootIn actorsIn migrations deferredCodeIDs).
#[local] Abbreviation Inv :=
  (Inv cfg priorEpoch actorsIn migrations deferredCodeIDs).
#[local] Abbreviation is_job := (is_job actorsIn migrations deferredCodeIDs).
#[local] Abbreviation is_result :=
  (is_result priorEpoch actorsIn migrations deferredCodeIDs).
#[local] Abbreviation live_addresses := (live_addresses deferredCodeIDs).

Lemma migrateOneActor_Ok ctx store input store' r :
  migrateOneActor ctx store input priorEpoch = Returns (store', Ok r) →
  r.(mr_Address) = input.(mi_Address).
Proof.
  unfold migrateOneActor. intros Hm. repeat case_match; simplify_eq. done.
Qed.

Lemma live_addresses_cons_live a x l :
  states2.Code x ∉ deferredCodeIDs →
  live_addresses ((a, x) :: l) = {[a]} ∪ live_addresses l.
Proof.
  intros Hx. unfold live_addresses.
  rewrite filter_cons_True by done. simpl. done.
Qed.

Lemma live_addresses_cons_deferred a x l :
  states2.Code x ∈ deferredCodeIDs →
  live_addresses ((a, x) :: l) = live_addresses l.
Proof.
  intros Hx. unfold live_addresses.
  rewrite filter_cons_False; [done|]. simpl. by intros ?.
Qed.

Lemma live_addresses_dom :
  (ForEach actorsIn).2 = None →
  live_addresses (ForEach actorsIn).1
  = dom (filter (λ kv, kv.2.(states2.Code) ∉ deferredCodeIDs) actorsIn).
Proof.
  intros Hwalk. apply set_eq. intros a.
  unfold live_addresses.
  rewrite elem_of_list_to_set, list_elem_of_fmap, elem_of_dom.
  split.
  - intros ([a' x] & -> & [Hlive Hin]%list_elem_of_filter). simpl in *.
    exists x. apply map_lookup_filter_Some. split; [|done].
    by apply ForEach_sound.
  - intros [x [Hx Hlive]%map_lookup_filter_Some]. simpl in *.
    exists (a, x). split; [done|]. apply list_elem_of_filter. split; [done|].
    by apply ForEach_complete.
Qed.

Lemma Inv_producer s s' :
  Inv s →
  step_producer cfg actorsRootIn actorsIn migrations deferredCodeIDs s
  = Some (Returns s') →
  Inv s'.
Proof.
  intros Hinv Hstep. unfold step_producer in Hstep. inv_start.
  all: try set_goal.
  - clear -Hrest. set_solver.
  - rewrite <- HA. rewrite live_addresses_cons_deferred by done. done.
  - clear -Hrest. set_solver.
  - apply Forall_cons; split; [|done]. split_and!; simpl; [|done|done].
    apply ForEach_sound. apply Hrest. by left.
  - rewrite <- HA. rewrite live_addresses_cons_live by done.
    clear. set_solver.
Qed.

Lemma Inv_producer_handoff w s s' :
  Inv s → step_producer_handoff w s = Some (Returns s') → Inv s'.
Proof.
  intros Hinv Hstep. unfold step_producer_handoff in Hstep. inv_start.
  all: set_goal.
Qed.

Lemma Inv_producer_cancelled s s' :
  Inv s → step_producer_cancelled s = Some (Returns s') → Inv s'.
Proof.
  intros Hinv Hstep. unfold step_producer_cancelled in Hstep. inv_start.
  all: set_goal.
Qed.

Lemma Inv_worker w s s' :
  Inv s → step_worker cfg priorEpoch w s = Some (Returns s') → Inv s'.
Proof.
  intros Hinv Hstep. unfold step_worker in Hstep. inv_start.
  all: try set_goal.
  - rewrite Forall_forall in Hjobs.
    match goal with
    | Hm : migrateOneActor _ _ ?m _ = Returns (_, Ok ?r) |- _ =>
      assert (is_job m) as Hjob by (apply Hjobs; clear; set_solver);
      assert (is_result r) as Hr by (eexists _, _, _, _; eauto)
    end.
    rewrite Forall_forall in Hres |- *. clear -Hres Hr. set_solver.
  - match goal with
    | Hm : migrateOneActor _ _ _ _ = _ |- _ =>
      apply migrateOneActor_Ok in Hm; rename Hm into Haddr
    end.
    rewrite <- HA. clear -Haddr. set_solver.
Qed.

Lemma Inv_worker_handoff w s s' :
  Inv s → step_worker_handoff w s = Some (Returns s') → Inv s'.
Proof.
  intros Hinv Hstep. unfold step_worker_handoff in Hstep. inv_start.
  all: set_goal.
Qed.

Lemma Inv_worker_cancelled w s s' :
  Inv s → step_worker_cancelled w s = Some (Returns s') → Inv s'.
Proof.
  intros Hinv Hstep. unfold step_worker_cancelled in Hstep. inv_start.
  all: set_goal.
Qed.

Lemma Inv_closer s s' :
  Inv s → step_closer s = Some (Returns s') → Inv s'.
Proof.
  intros Hinv Hstep. unfold step_closer in Hstep. inv_start.
  all: set_goal.
Qed.

Lemma Inv_writer s s' :
  Inv s → step_writer s = Some (Returns s') → Inv s'.
Proof.
  intros Hinv Hstep. unfold step_writer in Hstep. inv_start.
  all: try set_goal.
  all: match goal with
       | Hs : SetActor _ _ _ = Ok _ |- _ =>
         apply SetActor_insert in Hs; subst
       end.
  - intros a0 y. rewrite lookup_insert. case_decide as Ha; [|by apply Hout].
    intros [= <-]. subst a0.
    rewrite Forall_forall in Hres.
    match goal with r : migrationResult |- _ => destruct r end.
    apply Hres. clear. set_solver.
  - rewrite <- HA, dom_insert_L. clear. set_solver.
Qed.

Lemma Inv_monitor s s' :
  Inv s → step_monitor s = Some (Returns s') → Inv s'.
Proof.
  intros Hinv Hstep. unfold step_monitor in Hstep. inv_start.
  all: set_goal.
Qed.

Lemma Inv_monitor_stop s s' :
  Inv s → step_monitor_stop s = Some (Returns s') → Inv s'.
Proof.
  intros Hinv Hstep. unfold step_monitor_stop in Hstep. inv_start.
  all: set_goal.
Qed.

Lemma Inv_main s s' :
  Inv s → step_main cfg s = Some (Returns s') → Inv s'.
Proof.
  intros Hinv Hstep. unfold step_main in Hstep. inv_start.
  all: set_goal.
Qed.

Lemma Inv_cancel d s s' :
  Inv s → step_cancel d s = Some (Returns s') → Inv s'.
Proof.
  intros Hinv Hstep. unfold step_cancel in Hstep. inv_start.
  all: set_goal.
Qed.

Lemma Inv_step a s s' : Inv s → step a s = Some (Returns s') → Inv s'.
Proof.
  destruct a; simpl;
    eauto using Inv_producer, Inv_producer_handoff, Inv_producer_cancelled,
      Inv_worker, Inv_worker_handoff, Inv_worker_cancelled, Inv_closer,
      Inv_writer, Inv_monitor, Inv_monitor_stop, Inv_main, Inv_cancel.
Qed.

Lemma Inv_spawned ctx store : Inv (spawned cfg ctx store ∅).
Proof.
  constructor; unfold spawned; norm_inv.
  - by rewrite length_replicate.
  - done.
  - by rewrite replicate_bind_nil.
  - by rewrite replicate_bind_nil.
  - intros a y. by rewrite lookup_empty.
  - intros _. constructor; norm_inv; try done.
    + rewrite !replicate_bind_nil by done. simpl. rewrite dom_empty_L.
      clear. set_solver.
    + intros Hd. by apply elem_of_replicate in Hd as [? _].
Qed.

Lemma run_invariant (P : State → Prop) sched s s' :
  (∀ a s s', P s → step a s = Some (Returns s') → P s') →
  P s → run sched s = Some (Returns s') → P s'.
Proof.
  intros Hstep. revert s.
  induction sched as [|a sched IH]; simpl; intros s HP Hrun.
  - by simplify_eq.
  - destruct (step a s) as [[s1|msg]|] eqn:Hs; simplify_eq. eauto.
Qed.

Lemma run_app sched1 sched2 s :
  run (sched1 ++ sched2) s
  = match run sched1 s with
    | Some (Returns s1) => run sched2 s1
    | other => other
    end.
Proof.
  revert s. induction sched1 as [|a sched1 IH]; simpl; intros s; [done|].
  destruct (step a s) as [[s1|msg]|]; auto.
Qed.

Lemma Inv_run ctx store sched s :
  run sched (spawned cfg ctx store ∅) = Some (Returns s) → Inv s.
Proof.
  apply (run_invariant Inv); [apply Inv_step|apply Inv_spawned].
Qed.

(** The first error of the group is never replaced. *)
Lemma step_group_sticky a s s' e :
  st_grp s = Some e → step a s = Some (Returns s') → st_grp s' = Some e.
Proof. intros Hg Hs. step_cases; done. Qed.

Lemma run_group_sticky sched s s' e :
  st_grp s = Some e → run sched s = Some (Returns s') → st_grp s' = Some e.
Proof.
  apply (run_invariant (λ s, st_grp s = Some e)).
  intros a s1 s2. apply step_group_sticky.
Qed.

Lemma Counters_step a s s' :
  Counters s → step a s = Some (Returns s') → Counters s'.
Proof.
  intros [Hj Hd Hm] Hs. step_cases.
  all: constructor; simpl; try done; apply in_uint32_AddUint32.
Qed.

Lemma Counters_spawned ctx store out0 :
  Counters (spawned cfg ctx store out0).
Proof.
  constructor; simpl; unfold in_uint32; try lia.
  case_decide; simpl; lia.
Qed.

Lemma Counters_run ctx store out0 sched s :
  run sched (spawned cfg ctx store out0) = Some (Returns s) → Counters s.
Proof.
  apply (run_invariant Counters); [apply Counters_step|].
  apply Counters_spawned.
Qed.

(** Once every goroutine has returned without an error, the output tree
    holds exactly the records that are not deferred. *)
Lemma joined_success s :
  Inv s → joined s = true → st_grp s = None → (0 < MaxWorkers cfg)%N →
  dom (st_actorsOut s) = live_addresses (ForEach actorsIn).1
  ∧ (ForEach actorsIn).2 = None.
Proof.
  intros [Hw _ _ _ _ Hprog] Hj Hg Hpos.
  destruct (Hprog Hg) as [HA HWalk HJ HR]. clear Hprog.
  destruct s as [ctx grp store out [ibuf iclosed] [rbuf rclosed]
                 wf jc dc lg mn p ws cl wr mo].
  unfold joined in Hj. norm_inv.
  repeat case_match; simplify_eq.
  destruct (forallb_WDone_jobs ws Hj) as [Hjobs Hres].
  destruct HJ as [_ ->]; [apply forallb_WDone_elem; [done|lia]|].
  destruct HR as [_ ->]; [done|].
  split; [|by apply HWalk].
  rewrite <- HA, Hjobs, Hres. simpl. clear. set_solver.
Qed.

(** What [pipeline] returns, read back on the final state. *)
Lemma pipeline_returns ctx store out0 sched r lg :
  pipeline cfg priorEpoch actorsRootIn actorsIn migrations deferredCodeIDs
    ctx store out0 sched = Some (Returns (r, lg)) →
  ∃ s, run sched (spawned cfg ctx store out0) = Some (Returns s)
       ∧ joined s = true
       ∧ match st_grp s with
         | Some err => r = (cid.Undef, Some err)
         | None => r = Flush (st_store s) (st_actorsOut s)
         end.
Proof.
  unfold pipeline. intros Hp.
  destruct (run sched _) as [[s|msg]|] eqn:Hrun; simplify_eq.
  destruct (joined s) eqn:Hj; simplify_eq.
  exists s. split_and!; [done..|].
  destruct (st_grp s); by simplify_eq.
Qed.

(** A result in the pipeline is the capability's record of an input record
    that is not deferred and whose code is in the registry. *)
Lemma is_result_migrated r :
  is_result r →
  ∃ x m ctx store,
    actorsIn !! r.(mr_Address) = Some x
    ∧ (x.(states2.Code) ∉ deferredCodeIDs)
    ∧ migrations !! x.(states2.Code) = Some m
    ∧ migrated priorEpoch m ctx store r.(mr_Address) x r.(mr_Actor).
Proof.
  intros ([a x om] & ctx & store & store' & (Hin & Hlive & Hm) & Hr).
  simpl in *. subst om. unfold migrateOneActor in Hr. simpl in Hr.
  destruct (migrations !! states2.Code x) as [m|] eqn:Hm; [|done].
  destruct (MigrateState m ctx store _) as [store1 [res err]] eqn:Hcall.
  destruct err as [e|]; [done|]. destruct res as [res|]; [|done].
  simplify_eq. simpl. exists x, m, ctx, store. split_and!; try done.
  exists res. by rewrite Hcall.
Qed.

Lemma is_result_functional r r' :
  deterministic_capabilities migrations →
  is_result r → is_result r' →
  r.(mr_Address) = r'.(mr_Address) → r = r'.
Proof.
  intros Hdet (x & m & ctx & store & Hx & _ & Hm & res & Hres & Hy)%is_result_migrated
    (x' & m' & ctx' & store' & Hx' & _ & Hm' & res' & Hres' & Hy')%is_result_migrated
    Haddr.
  destruct r as [a y], r' as [a' y']. simpl in *. simplify_eq.
  rewrite (Hdet _ _ ctx ctx' store store' _ Hm) in Hres. congruence.
Qed.

(** A worker whose capability fails leaves the group with its first error:
    an earlier one, or else the capability's error wrapped with the name and
    the address of the actor. *)
Lemma step_worker_fails w s input m store' res cause :
  st_workers s !! w = Some (WRun input) →
  input.(mi_StateMigration) = Some m →
  m.(MigrateState) {| ctx_Err := st_ctx s |} (st_store s)
    (Build_StateMigrationInput input.(mi_Address)
       input.(mi_Actor).(states2.Balance) input.(mi_Actor).(states2.Head)
       priorEpoch)
  = (store', (res, Some cause)) →
  ∃ s', step (AWorker w) s = Some (Returns s')
        ∧ st_grp s'
          = Some (default
                    (MigrationFailed
                       (builtin2.ActorNameByCode
                          input.(mi_Actor).(states2.Code))
                       input.(mi_Address) cause)
                    (st_grp s)).
Proof.
  intros Hw Hm Hcall.
  destruct s as [ctx grp store out ich rch wf jc dc lg mn p ws cl wr mo].
  simpl in *. unfold step_worker. rewrite Hw.
  unfold migrateOneActor. rewrite Hm. simpl. rewrite Hcall.
  unfold grp_return. destruct grp; simpl; eauto.
Qed.

Lemma pipeline_worker_fails ctx store out0 sched1 sched2 s w input m
    store' res cause r lg :
  run sched1 (spawned cfg ctx store out0) = Some (Returns s) →
  st_workers s !! w = Some (WRun input) →
  input.(mi_StateMigration) = Some m →
  m.(MigrateState) {| ctx_Err := st_ctx s |} (st_store s)
    (Build_StateMigrationInput input.(mi_Address)
       input.(mi_Actor).(states2.Balance) input.(mi_Actor).(states2.Head)
       priorEpoch)
  = (store', (res, Some cause)) →
  pipeline cfg priorEpoch actorsRootIn actorsIn migrations deferredCodeIDs
    ctx store out0 (sched1 ++ AWorker w :: sched2) = Some (Returns (r, lg)) →
  r = (cid.Undef,
       Some (default
               (MigrationFailed
                  (builtin2.ActorNameByCode input.(mi_Actor).(states2.Code))
                  input.(mi_Address) cause)
               (st_grp s))).
Proof.
  intros Hrun Hw Hm Hcall (s2 & Hrun2 & _ & Hr)%pipeline_returns.
  destruct (step_worker_fails w s input m store' res cause Hw Hm Hcall)
    as (s1 & Hstep & Hg).
  rewrite run_app, Hrun in Hrun2. simpl in Hrun2.
  unfold step in Hstep. simpl in Hstep. rewrite Hstep in Hrun2.
  by rewrite (run_group_sticky _ _ _ _ Hg Hrun2) in Hr.
Qed.
End Invariant.

(** ** What a run that returns a root went through *)

Lemma MigrateStateTree_with_success `{builtin2.Actors} `{Storage}
    `{!StorageContract} migrations deferredCodeIDs ctx store actorsRootIn
    priorEpoch cfg sched root lg :
  MigrateStateTree_with migrations deferredCodeIDs ctx store actorsRootIn
    priorEpoch cfg sched = Some (Returns ((root, None), lg)) →
  ∃ actorsIn s,
    LoadTree store actorsRootIn = Ok actorsIn
    ∧ (0 < cfg.(MaxWorkers))%N
    ∧ run cfg priorEpoch actorsRootIn actorsIn migrations deferredCodeIDs
        sched (spawned cfg ctx store ∅) = Some (Returns s)
    ∧ joined s = true
    ∧ s.(st_grp) = None
    ∧ Flush s.(st_store) s.(st_actorsOut) = (root, None).
Proof.
  unfold MigrateStateTree_with, MigrateStateTree_from. intros Hrun.
  case_decide as Hworkers; [done|]. case_decide as Hsize; [done|].
  destruct (LoadTree store actorsRootIn) as [actorsIn|err] eqn:Hload; [|done].
  destruct (NewTree store) as [out0|err] eqn:Hnew; [|done].
  apply NewTree_empty in Hnew as ->.
  apply pipeline_returns in Hrun as (s & Hs & Hj & Hr).
  exists actorsIn, s. destruct (st_grp s) as [err|] eqn:Hg; [done|].
  split_and!; try done. lia.
Qed.

(** C1: after a run of MigrateStateTree that returns a root, the addresses of
    the output tree that was flushed are the addresses of the records of the
    input tree whose code is not deferred.  Stated for any values of the two
    registry variables; [MigrateStateTree] is [MigrateStateTree_with] at the
    literals of the source. *)
Theorem output_addresses `{builtin2.Actors} `{Storage} `{!StorageContract}
    migrations deferredCodeIDs ctx store actorsRootIn priorEpoch cfg
    sched root lg :
  MigrateStateTree_with migrations deferredCodeIDs ctx store actorsRootIn
    priorEpoch cfg sched = Some (Returns ((root, None), lg)) →
  ∃ (actorsIn : states2.Tree) s,
    LoadTree store actorsRootIn = Ok actorsIn
    ∧ run cfg priorEpoch actorsRootIn actorsIn migrations deferredCodeIDs
        sched (spawned cfg ctx store ∅) = Some (Returns s)
    ∧ Flush s.(st_store) s.(st_actorsOut) = (root, None)
    ∧ dom s.(st_actorsOut)
      = dom (filter (λ kv, kv.2.(states2.Code) ∉ deferredCodeIDs) actorsIn).
Proof.
  intros (actorsIn & s & Hload & Hpos & Hrun & Hj & Hg & Hflush)
    %MigrateStateTree_with_success.
  exists actorsIn, s. split_and!; try done.
  pose proof (Inv_run _ _ _ _ _ _ _ _ _ _ Hrun) as Hinv.
  destruct (joined_success _ _ _ _ _ _ Hinv Hj Hg Hpos) as [-> Hwalk].
  by apply live_addresses_dom.
Qed.


(** The length of the list of workers never changes. *)
Lemma workers_length_run `{builtin2.Actors} `{Storage} cfg priorEpoch
    actorsRootIn actorsIn migrations deferredCodeIDs ctx store out0 sched s :
  run cfg priorEpoch actorsRootIn actorsIn migrations deferredCodeIDs sched
    (spawned cfg ctx store out0) = Some (Returns s) →
  length s.(st_workers) = N.to_nat cfg.(MaxWorkers).
Proof.
  apply (run_invariant _ _ _ _ _ _
           (λ s, length s.(st_workers) = N.to_nat cfg.(MaxWorkers))).
  - intros a s1 s2 Hl Hs. step_cases; by rewrite ?length_insert.
  - simpl. by rewrite length_replicate.
Qed.

(** C4, as the code has it: a record that is not deferred and whose code has
    no capability in the registry is still made a job, with a nil capability;
    a worker that runs this job panics; and no run of MigrateStateTree on such
    a tree returns a root. *)
Theorem unmapped_code_job_panics `{builtin2.Actors} `{Storage}
    `{!StorageContract} migrations deferredCodeIDs ctx store actorsRootIn
    priorEpoch cfg (actorsIn : states2.Tree) a x :
  LoadTree store actorsRootIn = Ok actorsIn →
  actorsIn !! a = Some x →
  x.(states2.Code) ∉ deferredCodeIDs →
  migrations !! x.(states2.Code) = None →
  let job :=
    {| mi_Address := a; mi_Actor := x; mi_StateMigration := None |} in
  (∀ s rest,
     s.(st_producer) = PIter ((a, x) :: rest) →
     ∃ s',
       step_producer cfg actorsRootIn actorsIn migrations deferredCodeIDs s
       = Some (Returns s')
       ∧ s'.(st_producer) = PSend job rest)
  ∧ (∀ s w,
       s.(st_workers) !! w = Some (WRun job) →
       step_worker cfg priorEpoch w s = Some (Panics nil_dereference))
  ∧ (∀ sched root lg,
       MigrateStateTree_with migrations deferredCodeIDs ctx store
         actorsRootIn priorEpoch cfg sched
       ≠ Some (Returns ((root, None), lg))).
Proof.
  intros Hload Hx Hlive Hnone job. split_and!.
  - intros [] rest. simpl. intros ->. unfold step_producer.
    rewrite decide_False by done. rewrite Hnone. eauto.
  - intros [] w. simpl. intros Hw. unfold step_worker. by rewrite Hw.
  - intros sched root lg
      (actorsIn' & s & Hload' & Hpos & Hrun & Hj & Hg & Hflush)
        %MigrateStateTree_with_success.
    rewrite Hload in Hload'. injection Hload' as <-.
    pose proof (Inv_run _ _ _ _ _ _ _ _ _ _ Hrun) as Hinv.
    destruct (joined_success _ _ _ _ _ _ Hinv Hj Hg Hpos) as [Hdom Hwalk].
    rewrite (live_addresses_dom _ _ Hwalk) in Hdom.
    assert (a ∈ dom (st_actorsOut s)) as [y Hy]%elem_of_dom.
    { rewrite Hdom. apply elem_of_dom. exists x.
      by apply map_lookup_filter_Some. }
    apply (inv_out _ _ _ _ _ _ Hinv), is_result_migrated in Hy
      as (x' & m & _ & _ & Hx' & _ & Hm & _).
    simpl in Hx'. congruence.
Qed.

(** C3, as the code has it: when the capability of a job returns an error,
    every run that goes on to return returns no root and the first error of
    the group: the error of an earlier failure if there was one, and else the
    capability's error wrapped with the name and the address of the actor. *)
Theorem capability_error_is_fatal `{builtin2.Actors} `{Storage}
    migrations deferredCodeIDs ctx store actorsRootIn priorEpoch cfg
    actorsIn out0 sched1 sched2 s w input m store' res cause r lg :
  LoadTree store actorsRootIn = Ok actorsIn →
  NewTree store = Ok out0 →
  run cfg priorEpoch actorsRootIn actorsIn migrations deferredCodeIDs sched1
    (spawned cfg ctx store out0) = Some (Returns s) →
  s.(st_workers) !! w = Some (WRun input) →
  input.(mi_StateMigration) = Some m →
  m.(MigrateState) {| ctx_Err := s.(st_ctx) |} s.(st_store)
    {| address := input.(mi_Address);
       balance := input.(mi_Actor).(states2.Balance);
       head := input.(mi_Actor).(states2.Head);
       priorEpoch := priorEpoch |}
  = (store', (res, Some cause)) →
  MigrateStateTree_with migrations deferredCodeIDs ctx store actorsRootIn
    priorEpoch cfg (sched1 ++ AWorker w :: sched2)
  = Some (Returns (r, lg)) →
  r = (cid.Undef,
       Some (default
               (MigrationFailed
                  (builtin2.ActorNameByCode input.(mi_Actor).(states2.Code))
                  input.(mi_Address) cause)
               s.(st_grp))).
Proof.
  intros Hload Hnew Hrun Hw Hm Hcall.
  unfold MigrateStateTree_with, MigrateStateTree_from.
  case_decide as Hworkers.
  { apply workers_length_run in Hrun. apply lookup_lt_Some in Hw. lia. }
  case_decide as Hsize; [done|]. rewrite Hload, Hnew.
  by eapply pipeline_worker_fails.
Qed.

(** C2: a record that [migrateOneActor] returns has the address, the balance
    and the call sequence number of the input record, and the code and the
    head that the capability returned. *)
Theorem migrateOneActor_copies `{builtin2.Actors} ctx store input priorEpoch
    store' r :
  migrateOneActor ctx store input priorEpoch = Returns (store', Ok r) →
  r.(mr_Address) = input.(mi_Address)
  ∧ r.(mr_Actor).(states3.Balance) = input.(mi_Actor).(states2.Balance)
  ∧ r.(mr_Actor).(states3.CallSeqNum)
    = input.(mi_Actor).(states2.CallSeqNum)
  ∧ ∃ m res,
      input.(mi_StateMigration) = Some m
      ∧ m.(MigrateState) ctx store
          {| address := input.(mi_Address);
             balance := input.(mi_Actor).(states2.Balance);
             head := input.(mi_Actor).(states2.Head);
             priorEpoch := priorEpoch |}
        = (store', (Some res, None))
      ∧ r.(mr_Actor).(states3.Code) = res.(NewCodeCID)
      ∧ r.(mr_Actor).(states3.Head) = res.(NewHead).
Proof.
  unfold migrateOneActor. intros Hr.
  destruct (mi_StateMigration input) as [m|]; [|done].
  destruct (MigrateState m ctx store _) as [store1 [res err]] eqn:Hcall.
  destruct err as [e|]; [done|]. destruct res as [res|]; [|done].
  simplify_eq. simpl. split_and!; try done. by exists m, res.
Qed.

(** C6: the no-op capability returns the head of its input as the new head
    and its configured code CID as the new code. *)
Theorem nilMigrator_preserves_head (n : nilMigrator) ctx store in_ :
  ∃ r,
    (MigrateState n ctx store in_).2.1 = Some r
    ∧ r.(NewHead) = in_.(head)
    ∧ r.(NewCodeCID) = n.(OutCodeCID).
Proof. by eexists. Qed.

(** C9: the no-op capability always returns a result and no error, leaves
    the store as it was, and returns the same whatever the context and the
    store. *)
Theorem nilMigrator_total (n : nilMigrator) ctx store in_ :
  ∃ r,
    MigrateState n ctx store in_ = (store, (Some r, None))
    ∧ ∀ ctx' store', (MigrateState n ctx' store' in_).2 = (Some r, None).
Proof. by eexists. Qed.

(** C8: with no workers MigrateStateTree returns the configuration error
    whatever the storage and the schedule, having logged nothing; with a
    positive number of workers it goes on to the rest of its body. *)
Theorem worker_count_check `{builtin2.Actors} `{builtin3.Actors} `{Migrators}
    `{Storage} ctx store actorsRootIn priorEpoch cfg sched :
  (cfg.(MaxWorkers) = 0%N →
   MigrateStateTree ctx store actorsRootIn priorEpoch cfg sched
   = Some (Returns ((cid.Undef, Some (InvalidConfig 0)), [])))
  ∧ ((0 < cfg.(MaxWorkers))%N →
     MigrateStateTree ctx store actorsRootIn priorEpoch cfg sched
     = MigrateStateTree_from migrations deferredCodeIDs ctx store
         actorsRootIn priorEpoch cfg sched).
Proof.
  unfold MigrateStateTree, MigrateStateTree_with. split.
  - intros ->. by rewrite decide_True.
  - intros Hpos. rewrite decide_False; [done|lia].
Qed.


(** ** The registry *)

Lemma dom_map_literal {V} (entries : list (cid.Cid * V)) :
  dom (map_literal entries) = list_to_set entries.*1.
Proof.
  unfold map_literal.
  assert (∀ m : gmap string V,
            dom (foldl (λ m kv, <[kv.1:=kv.2]> m) m entries)
            = list_to_set entries.*1 ∪ dom m) as Hgen.
  { induction entries as [|[k v] entries IH]; intros m; simpl.
    - set_solver.
    - rewrite IH, dom_insert_L. set_solver. }
  rewrite Hgen, dom_empty_L. set_solver.
Qed.


(** ** The theorems at work on the small concrete world *)

Import Sample.

Lemma sample_deterministic :
  deterministic_capabilities migrations.
Proof.
  intros c m ctx ctx' store store' in_ Hm.
  unfold migrations, map_literal in Hm. simpl in Hm.
  repeat (apply lookup_insert_Some in Hm as [[<- <-]|[_ Hm]]; [try done|]).
  - simpl. by case_decide.
  - by rewrite lookup_empty in Hm.
Qed.

Lemma output_addresses_witness :
  MigrateStateTree Sample.background ∅ "root1" 7 (Sample.config 1 0 0)
    Sample.unbuffered
  = Some (Returns
            (("A1:fil/3/account:S1;A2:fil/3/storageminer:S2';", None),
             [LogStartedWorkers 1; LogWriterStarted; LogCreatingJobs "root1";
              LogDoneCreatingJobs 2 "root1"; LogWorkerDone 0;
              LogAllWorkersDone; LogWriterWrote 2; LogAllDone 2]))
  ∧ ∃ (actorsIn : states2.Tree) s,
      LoadTree ∅ "root1" = Ok actorsIn
      ∧ run (Sample.config 1 0 0) 7 "root1" actorsIn migrations
          deferredCodeIDs Sample.unbuffered
          (spawned (Sample.config 1 0 0) Sample.background ∅ ∅)
        = Some (Returns s)
      ∧ Flush s.(st_store) s.(st_actorsOut)
        = ("A1:fil/3/account:S1;A2:fil/3/storageminer:S2';", None)
      ∧ dom s.(st_actorsOut)
        = dom (filter (λ kv, kv.2.(states2.Code) ∉ deferredCodeIDs) actorsIn).
Proof.
  assert (MigrateStateTree Sample.background ∅ "root1" 7 (Sample.config 1 0 0)
    Sample.unbuffered
  = Some (Returns
            (("A1:fil/3/account:S1;A2:fil/3/storageminer:S2';", None),
             [LogStartedWorkers 1; LogWriterStarted; LogCreatingJobs "root1";
              LogDoneCreatingJobs 2 "root1"; LogWorkerDone 0;
              LogAllWorkersDone; LogWriterWrote 2; LogAllDone 2]))) as Hrun
    by (vm_compute; reflexivity).
  split; [exact Hrun|].
  exact (output_addresses migrations deferredCodeIDs Sample.background ∅
           "root1" 7 (Sample.config 1 0 0) Sample.unbuffered _ _ Hrun).
Defined.


Lemma unmapped_code_job_panics_witness :
  let x := actor "fil/9/unknown" "S3" 1 1 in
  let job :=
    {| mi_Address := "A3"; mi_Actor := x; mi_StateMigration := None |} in
  LoadTree ∅ "root3" = Ok tree3
  ∧ tree3 !! "A3" = Some x
  ∧ x.(states2.Code) ∉ deferredCodeIDs
  ∧ migrations !! x.(states2.Code) = None
  ∧ (∀ s rest,
       s.(st_producer) = PIter (("A3", x) :: rest) →
       ∃ s',
         step_producer (config 1 0 0) "root3" tree3 migrations
           deferredCodeIDs s = Some (Returns s')
         ∧ s'.(st_producer) = PSend job rest)
  ∧ (∀ s w,
       s.(st_workers) !! w = Some (WRun job) →
       step_worker (config 1 0 0) 7 w s = Some (Panics nil_dereference))
  ∧ (∀ sched root lg,
       MigrateStateTree_with migrations deferredCodeIDs background ∅
         "root3" 7 (config 1 0 0) sched
       ≠ Some (Returns ((root, None), lg))).
Proof.
  intros x job.
  assert (LoadTree ∅ "root3" = Ok tree3) as Hload
    by (vm_compute; reflexivity).
  assert (tree3 !! "A3" = Some x) as Hx by (vm_compute; reflexivity).
  assert (x.(states2.Code) ∉ deferredCodeIDs) as Hlive
    by apply not_elem_of_empty.
  assert (migrations !! x.(states2.Code) = None) as Hnone
    by (vm_compute; reflexivity).
  exact (conj Hload (conj Hx (conj Hlive (conj Hnone
           (unmapped_code_job_panics migrations deferredCodeIDs background ∅
              "root3" 7 (config 1 0 0) tree3 "A3" x
              Hload Hx Hlive Hnone))))).
Defined.

(** C4, as the claim has it, fails: on a tree that holds only an actor of an
    unknown code the run ends in a panic, not in a returned error; and on a
    tree that also holds an account the panic comes after the account has
    been migrated and written. *)
Lemma unmapped_code_counterexample :
  MigrateStateTree background ∅ "root3" 7 (config 1 0 0)
    (unknown_handed ++ [AWorker 0])
  = Some (Panics nil_dereference)
  ∧ ∃ s y,
      run (config 1 0 0) 7 "root2" tree2 migrations deferredCodeIDs
        account_written (spawned (config 1 0 0) background ∅ ∅)
      = Some (Returns s)
      ∧ s.(st_actorsOut) !! "A3" = Some y
      ∧ MigrateStateTree background ∅ "root2" 7 (config 1 0 0)
          (account_written ++ [AWorker 0])
        = Some (Panics nil_dereference).
Proof.
  split; [vm_compute; reflexivity|].
  eexists _, _. split_and!; vm_compute; reflexivity.
Qed.

Lemma capability_error_is_fatal_witness :
  let job :=
    {| mi_Address := "A2";
       mi_Actor := actor "fil/2/multisig" "bad" 2 0;
       mi_StateMigration := Some multisigMigrator |} in
  let failure :=
    MigrationFailed "fil/2/multisig" "A2" (External "bad state") in
  ∃ s,
    LoadTree ∅ "root4" = Ok tree4
    ∧ NewTree ∅ = Ok ∅
    ∧ run (config 2 0 0) 7 "root4" tree4 migrations deferredCodeIDs
        both_handed (spawned (config 2 0 0) background ∅ ∅)
      = Some (Returns s)
    ∧ s.(st_workers) !! 1 = Some (WRun job)
    ∧ job.(mi_StateMigration) = Some multisigMigrator
    ∧ multisigMigrator.(MigrateState) {| ctx_Err := s.(st_ctx) |}
        s.(st_store)
        {| address := "A2"; balance := 0; head := "bad"; priorEpoch := 7 |}
      = (∅, (None, Some (External "bad state")))
    ∧ MigrateStateTree background ∅ "root4" 7 (config 2 0 0)
        (both_handed ++ AWorker 1 :: wind_down)
      = Some (Returns
                ((cid.Undef, Some failure),
                 [LogStartedWorkers 2; LogWriterStarted;
                  LogCreatingJobs "root4"; LogDoneCreatingJobs 2 "root4";
                  LogAllWorkersDone; LogWriterWrote 0]))
    ∧ (cid.Undef, Some failure)
      = (cid.Undef, Some (default failure s.(st_grp))).
Proof.
  intros job failure.
  assert (∃ s,
            run (config 2 0 0) 7 "root4" tree4 migrations deferredCodeIDs
              both_handed (spawned (config 2 0 0) background ∅ ∅)
            = Some (Returns s)) as [s Hrun]
    by (eexists; vm_compute; reflexivity).
  exists s.
  assert (LoadTree ∅ "root4" = Ok tree4) as Hload
    by (vm_compute; reflexivity).
  assert (NewTree ∅ = Ok ∅) as Hnew by reflexivity.
  assert (s.(st_workers) !! 1 = Some (WRun job)) as Hw.
  { vm_compute in Hrun. injection Hrun as <-. vm_compute. reflexivity. }
  assert (job.(mi_StateMigration) = Some multisigMigrator) as Hm
    by reflexivity.
  assert (multisigMigrator.(MigrateState) {| ctx_Err := s.(st_ctx) |}
            s.(st_store)
            {| address := "A2"; balance := 0; head := "bad";
               priorEpoch := 7 |}
          = (∅, (None, Some (External "bad state")))) as Hcall.
  { vm_compute in Hrun. injection Hrun as <-. vm_compute. reflexivity. }
  match goal with
  | |- _ ∧ _ ∧ _ ∧ _ ∧ _ ∧ _ ∧ ?ret ∧ _ =>
    assert ret as Hret by (vm_compute; reflexivity)
  end.
  split_and!; try assumption.
  unfold MigrateStateTree in Hret.
  exact (capability_error_is_fatal migrations deferredCodeIDs background ∅
           "root4" 7 (config 2 0 0) tree4 ∅ both_handed wind_down s 1 job
           multisigMigrator ∅ None (External "bad state") _ _
           Hload Hnew Hrun Hw Hm Hcall Hret).
Defined.

(** C3, as the claim has it, fails: the capability of the multisig job
    returns an error, and the run returns the error of the cancelled context,
    which a worker had returned before; that error does not wrap the name
    and the address of the actor. *)
Lemma capability_error_counterexample :
  let job :=
    {| mi_Address := "A2";
       mi_Actor := actor "fil/2/multisig" "bad" 2 0;
       mi_StateMigration := Some multisigMigrator |} in
  ∃ s,
    run (config 2 0 0) 7 "root4" tree4 migrations deferredCodeIDs
      cancelled_first (spawned (config 2 0 0) background ∅ ∅)
    = Some (Returns s)
    ∧ s.(st_workers) !! 1 = Some (WRun job)
    ∧ multisigMigrator.(MigrateState) {| ctx_Err := s.(st_ctx) |}
        s.(st_store)
        {| address := "A2"; balance := 0; head := "bad"; priorEpoch := 7 |}
      = (∅, (None, Some (External "bad state")))
    ∧ MigrateStateTree background ∅ "root4" 7 (config 2 0 0)
        (cancelled_first ++ AWorker 1 :: [ACloser; AWriter])
      = Some (Returns
                ((cid.Undef, Some Canceled),
                 [LogStartedWorkers 2; LogWriterStarted;
                  LogCreatingJobs "root4"; LogDoneCreatingJobs 2 "root4";
                  LogAllWorkersDone; LogWriterWrote 0]))
    ∧ ∀ name addr cause, Canceled ≠ MigrationFailed name addr cause.
Proof.
  intros job. eexists. split_and!.
  - vm_compute; reflexivity.
  - vm_compute; reflexivity.
  - vm_compute; reflexivity.
  - vm_compute; reflexivity.
  - done.
Qed.

Lemma migrateOneActor_copies_witness :
  let input :=
    {| mi_Address := "A1";
       mi_Actor := actor "fil/2/account" "S1" 3 5;
       mi_StateMigration :=
         Some (nilMigrator_StateMigration
                 {| OutCodeCID := "fil/3/account" |}) |} in
  let r :=
    {| mr_Address := "A1";
       mr_Actor :=
         {| states3.Code := "fil/3/account"; states3.Head := "S1";
            states3.CallSeqNum := 3; states3.Balance := 5 |} |} in
  migrateOneActor background ∅ input 7 = Returns (∅, Ok r)
  ∧ r.(mr_Address) = input.(mi_Address)
  ∧ r.(mr_Actor).(states3.Balance) = input.(mi_Actor).(states2.Balance)
  ∧ r.(mr_Actor).(states3.CallSeqNum)
    = input.(mi_Actor).(states2.CallSeqNum)
  ∧ ∃ m res,
      input.(mi_StateMigration) = Some m
      ∧ m.(MigrateState) background ∅
          {| address := input.(mi_Address);
             balance := input.(mi_Actor).(states2.Balance);
             head := input.(mi_Actor).(states2.Head);
             priorEpoch := 7 |}
        = (∅, (Some res, None))
      ∧ r.(mr_Actor).(states3.Code) = res.(NewCodeCID)
      ∧ r.(mr_Actor).(states3.Head) = res.(NewHead).
Proof.
  intros input r.
  assert (migrateOneActor background ∅ input 7 = Returns (∅, Ok r)) as Hr
    by reflexivity.
  exact (conj Hr (migrateOneActor_copies background ∅ input 7 ∅ r Hr)).
Defined.


(** ** Synchronisation: channel safety, progress and termination *)

Lemma forallb_is_WDone ws :
  forallb is_WDone ws = true ↔ Forall (λ pc, pc = WDone) ws.
Proof.
  induction ws as [|pc ws IH]; simpl.
  - split; [by constructor|done].
  - rewrite andb_true_iff, Forall_cons, IH. destruct pc; naive_solver.
Qed.

Lemma forallb_false_lookup {A} (f : A → bool) l :
  forallb f l = false → ∃ i x, l !! i = Some x ∧ f x = false.
Proof.
  induction l as [|x l IH]; simpl; [done|].
  destruct (f x) eqn:Hx; simpl.
  - intros (i & y & Hl & Hy)%IH. by exists (S i), y.
  - intros _. by exists 0, x.
Qed.

Section Synchronisation.
Context `{builtin2.Actors} `{Storage}.
Variable cfg : Config.
Variable priorEpoch : abi.ChainEpoch.
Variable actorsRootIn : cid.Cid.
Variable actorsIn : states2.Tree.
Variable migrations : gmap cid.Cid StateMigration.
Variable deferredCodeIDs : gset cid.Cid.

#[local] Abbreviation step :=
  (step cfg priorEpoch actorsRootIn actorsIn migrations deferredCodeIDs).
#[local] Abbreviation run :=
  (run cfg priorEpoch actorsRootIn actorsIn migrations deferredCodeIDs).

Lemma Sync_step a s s' :
  Sync cfg s → step a s = Some (Returns s') → Sync cfg s'.
Proof.
  intros [Hw Hi Hr Hf Hc Hg Hwd Hwr Hib Hrb] Hs. step_cases.
  all: split_workers.
  all: constructor; simpl in *.
  all: try done.
  all: try (rewrite ?length_app in *; simpl in *; lia).
  all: try (by intros _; left; eauto).
  all: try (by intros _; right).
  all: try (split; [intros Hx; apply Hi in Hx; done|done]).
  all: try (by apply forallb_is_WDone).
  all: try (intros Hx; apply Hc in Hx; rewrite Forall_app, Forall_cons in Hx;
            by destruct Hx as (_ & ? & _)).
  all: try (intros Hx; destruct (Hwr Hx) as [?|[? ?]]; [by left|done]).
  all: try (intros Hx; destruct Hwd as [?|[? ?]];
            [clear -Hx; set_solver|by left|simplify_eq; by right]).
  all: try (intros Hx; destruct (Hwd Hx) as [?|[? ?]]; [by left|by right]).
  all: match goal with
       | Ho : _ || _ = false |- _ => apply orb_false_elim in Ho as [? ?]
       end; simplify_eq.
  - intros _. by apply forallb_is_WDone.
  - intros Hx. destruct (Hwr Hx) as [?|[? ?]]; [by left|done].
Qed.

Lemma Sync_spawned ctx store out0 : Sync cfg (spawned cfg ctx store out0).
Proof.
  constructor; simpl; try done; try lia.
  - by rewrite length_replicate.
  - by intros Hd%elem_of_replicate_inv.
Qed.

Lemma Sync_run ctx store out0 sched s :
  run sched (spawned cfg ctx store out0) = Some (Returns s) → Sync cfg s.
Proof.
  apply (run_invariant _ _ _ _ _ _ (Sync cfg)); [apply Sync_step|].
  apply Sync_spawned.
Qed.

(** A panic of the pipeline is a panic of one of its moves. *)
Lemma run_panics sched s msg :
  run sched s = Some (Panics msg) →
  ∃ sched1 a sched2 s1,
    sched = sched1 ++ a :: sched2
    ∧ run sched1 s = Some (Returns s1)
    ∧ step a s1 = Some (Panics msg).
Proof.
  revert s. induction sched as [|a sched IH]; simpl; intros s Hrun; [done|].
  destruct (step a s) as [[s1|msg1]|] eqn:Hs; simplify_eq.
  - destruct (IH _ Hrun) as (sched1 & a' & sched2 & s2 & -> & Hr & Hp).
    exists (a :: sched1), a', sched2, s2. simpl. by rewrite Hs.
  - by exists [], a, sched, s.
Qed.

(** The only move that can panic is a worker's call of [migrateOneActor]:
    no goroutine sends on a closed channel, and no channel is closed
    twice. *)
Lemma step_panics a s msg :
  Sync cfg s → step a s = Some (Panics msg) →
  ∃ w input,
    a = AWorker w
    ∧ s.(st_workers) !! w = Some (WRun input)
    ∧ migrateOneActor {| ctx_Err := s.(st_ctx) |} s.(st_store) input
        priorEpoch = Panics msg.
Proof.
  intros [Hw Hi Hr Hf Hc Hg Hwd Hwr Hib Hrb] Hs. step_cases.
  all: try (by eexists _, _).
  all: exfalso.
  - by destruct Hi as [Hx _]; specialize (Hx eq_refl).
  - by destruct Hi as [Hx _]; specialize (Hx eq_refl).
  - destruct Hr as [Hx _]. specialize (Hc (Hx eq_refl)).
    match goal with
    | Hl : _ !! _ = Some (WSend _) |- _ =>
      by pose proof (Forall_lookup_1 _ _ _ _ Hc Hl)
    end.
  - destruct Hr as [Hx _]. specialize (Hc (Hx eq_refl)).
    match goal with
    | Hl : _ !! _ = Some (WSend _) |- _ =>
      by pose proof (Forall_lookup_1 _ _ _ _ Hc Hl)
    end.
  - destruct Hr as [Hx _].
    match goal with
    | Ho : _ || _ = true |- _ =>
      apply orb_prop in Ho as [?|?]; simplify_eq; by specialize (Hx eq_refl)
    end.
Qed.


Lemma work_left_step a s s' :
  group_action a = true → step a s = Some (Returns s') →
  work_left (ForEach actorsIn).1 s' < work_left (ForEach actorsIn).1 s.
Proof.
  intros Ha Hs. step_cases.
  all: try done.
  all: split_workers.
  all: unfold work_left; simpl.
  all: rewrite ?sum_list_with_app, ?length_app; simpl.
  all: lia.
Qed.

Lemma run_work_left sched s s' :
  forallb group_action sched = true →
  run sched s = Some (Returns s') →
  length sched + work_left (ForEach actorsIn).1 s'
  ≤ work_left (ForEach actorsIn).1 s.
Proof.
  revert s. induction sched as [|a sched IH]; simpl; intros s Hg Hrun.
  - simplify_eq. lia.
  - apply andb_prop in Hg as [Ha Hg].
    destruct (step a s) as [[s1|msg]|] eqn:Hs; simplify_eq.
    pose proof (work_left_step _ _ _ Ha Hs). specialize (IH _ Hg Hrun). lia.
Qed.

Lemma work_left_spawned ctx store out0 :
  work_left (ForEach actorsIn).1 (spawned cfg ctx store out0)
  = 9 * length (ForEach actorsIn).1 + N.to_nat cfg.(MaxWorkers) + 6.
Proof.
  unfold work_left, spawned. cbn [st_main st_producer st_workers st_inputCh
    st_resultCh st_closer st_writer producer_weight writer_weight buf make].
  assert (∀ n, sum_list_with worker_weight (replicate n WRecv) = n) as ->.
  { induction n; simpl; lia. }
  simpl. lia.
Qed.

Ltac moves a :=
  exists a; split; [done|];
  simpl;
  unfold step_main, step_producer, step_producer_handoff,
    step_producer_cancelled, step_worker, step_worker_handoff,
    step_worker_cancelled, step_closer, step_writer;
  simpl;
  repeat match goal with
         | Hl : ?ws !! ?w = Some _ |- context [?ws !! ?w] => rewrite Hl
         | He : ?x = _ |- context [match ?x with _ => _ end] => rewrite He
         end;
  simpl; repeat case_match; simplify_eq; solve [eauto | contradiction].

(** Unless every goroutine of the group has returned, one of them can
    move. *)
Lemma group_can_move s :
  Sync cfg s → (0 < MaxWorkers cfg)%N →
  joined s = true
  ∨ ∃ a, group_action a = true ∧ is_Some (step a s).
Proof.
  intros [Hw Hi Hr Hf Hc Hg Hwd Hwr Hib Hrb] Hpos.
  destruct s as [ctx grp store out [ibuf iclosed] [rbuf rclosed]
                 wf jc dc lg mn p ws cl wr mo].
  simpl in *.
  destruct mn; [right; moves AMain|].
  destruct (forallb is_WDone ws) eqn:Hfb.
  - (* every worker has returned *)
    assert (WDone ∈ ws) as Hd by (apply forallb_WDone_elem; [done|lia]).
    destruct p.
    1-2,4: right; moves AProducer.
    + (* the producer is blocked in its select *)
      destruct (Hwd Hd) as [Hgrp|[Hcl _]].
      * destruct (Hg Hgrp) as [e ->]. right. moves AProducerCancelled.
      * by apply Hi in Hcl.
    + destruct cl.
      { right. exists ACloser. split; [done|]. simpl. unfold step_closer.
        rewrite Hfb. case_match; eauto. }
      destruct wr.
      1,3: right; moves AWriter.
      * right. destruct Hr as [_ Hr]. rewrite (Hr eq_refl) in *.
        moves AWriter.
      * left. unfold joined. simpl. done.
  - (* some worker has not returned *)
    apply forallb_false_lookup in Hfb as (w & pc & Hl & Hpc).
    right. destruct pc; [| | | |done].
    + (* receiving *)
      destruct ibuf as [|x b]; [|moves (AWorker w)].
      destruct iclosed; [moves (AWorker w)|].
      destruct p; [moves AProducer|moves AProducer| |moves AProducer|].
      * moves (AProducerHandoff w).
      * by destruct Hi as [_ Hi]; specialize (Hi eq_refl).
    + moves (AWorker w).
    + (* publishing *)
      destruct rclosed; [moves (AWorker w)|].
      destruct (decide (N.of_nat (length rbuf) < ResultQueueSize cfg)%N)
        as [Hroom|Hfull]; [moves (AWorker w)|].
      destruct ctx as [e|]; [moves (AWorkerCancelled w)|].
      destruct wr; [moves AWriter| |moves AWriter|].
      * destruct rbuf; [moves (AWorkerHandoff w)|moves AWriter].
      * destruct Hwr as [Hgrp|[? _]]; [done| |done].
        by destruct (Hg Hgrp).
    + moves (AWorker w).
Qed.

Lemma run_cons a sched s :
  run (a :: sched) s
  = match step a s with
    | None => None
    | Some (Panics msg) => Some (Panics msg)
    | Some (Returns s') => run sched s'
    end.
Proof. done. Qed.

(** From any state a schedule of the group's goroutines leads to a panic or
    to the point where [grp.Wait] returns. *)
Lemma can_complete s :
  Sync cfg s → (0 < MaxWorkers cfg)%N →
  ∃ sched,
    forallb group_action sched = true
    ∧ ((∃ msg, run sched s = Some (Panics msg))
       ∨ ∃ s', run sched s = Some (Returns s') ∧ joined s' = true).
Proof.
  intros Hsync Hpos.
  remember (work_left (ForEach actorsIn).1 s) as n eqn:Hn.
  revert s Hsync Hn. induction (lt_wf n) as [n _ IH]. intros s Hsync ->.
  destruct (group_can_move s Hsync Hpos) as [Hj|(a & Ha & [o Hs])].
  { exists []. split; [done|]. right. by exists s. }
  destruct o as [s1|msg].
  - destruct (IH _ (work_left_step _ _ _ Ha Hs) s1) as (sched & Hg & Hend);
      [by eapply Sync_step|done|].
    exists (a :: sched). split; [simpl; by rewrite Ha|].
    by rewrite run_cons, Hs.
  - exists [a]. split; [simpl; by rewrite Ha|].
    left. exists msg. by rewrite run_cons, Hs.
Qed.
End Synchronisation.

(** ** Further properties of the pipeline *)

Lemma migrateOneActor_panics `{builtin2.Actors} ctx store input priorEpoch
    msg :
  migrateOneActor ctx store input priorEpoch = Panics msg →
  msg = nil_dereference
  ∧ (input.(mi_StateMigration) = None
     ∨ ∃ m store',
         input.(mi_StateMigration) = Some m
         ∧ m.(MigrateState) ctx store
             {| address := input.(mi_Address);
                balance := input.(mi_Actor).(states2.Balance);
                head := input.(mi_Actor).(states2.Head);
                priorEpoch := priorEpoch |}
           = (store', (None, None))).
Proof.
  unfold migrateOneActor. intros Hp.
  destruct (mi_StateMigration input) as [m|]; [|by simplify_eq; auto].
  destruct (MigrateState m ctx store _) as [store1 [res err]] eqn:Hcall.
  destruct err as [e|]; [done|]. destruct res as [res|]; [done|].
  simplify_eq. split; [done|]. right. by exists m, store1.
Qed.


(** X2: the pipeline does not deadlock.  With at least one worker, in every
    state the goroutines can reach, either all goroutines of the group have
    returned, so that [grp.Wait] returns, or one of them can move. *)
Theorem no_deadlock `{builtin2.Actors} `{Storage} cfg priorEpoch actorsRootIn
    actorsIn migrations deferredCodeIDs ctx store out0 sched s :
  (0 < cfg.(MaxWorkers))%N →
  run cfg priorEpoch actorsRootIn actorsIn migrations deferredCodeIDs sched
    (spawned cfg ctx store out0) = Some (Returns s) →
  joined s = true
  ∨ ∃ a,
      group_action a = true
      ∧ is_Some (step cfg priorEpoch actorsRootIn actorsIn migrations
                   deferredCodeIDs a s).
Proof.
  intros Hpos Hrun. apply group_can_move; [|done]. by eapply Sync_run.
Qed.


(** X4: MigrateStateTree never hangs.  With at least one worker, whatever
    the goroutines have done so far, they can go on to the point where the
    pipeline returns or panics. *)
Theorem run_can_complete `{builtin2.Actors} `{Storage} cfg priorEpoch
    actorsRootIn actorsIn migrations deferredCodeIDs ctx store out0 sched s :
  (0 < cfg.(MaxWorkers))%N →
  run cfg priorEpoch actorsRootIn actorsIn migrations deferredCodeIDs sched
    (spawned cfg ctx store out0) = Some (Returns s) →
  ∃ sched',
    forallb group_action sched' = true
    ∧ is_Some (pipeline cfg priorEpoch actorsRootIn actorsIn migrations
                 deferredCodeIDs ctx store out0 (sched ++ sched')).
Proof.
  intros Hpos Hrun.
  destruct (can_complete cfg priorEpoch actorsRootIn actorsIn migrations
              deferredCodeIDs s) as (sched' & Hg & Hend);
    [by eapply Sync_run|done|].
  exists sched'. split; [done|]. unfold pipeline.
  rewrite run_app, Hrun.
  destruct Hend as [[msg ->]|(s' & -> & ->)]; [done|].
  by destruct (st_grp s').
Qed.


Lemma workers_hold_one ws :
  length (ws ≫= worker_jobs) + length (ws ≫= worker_results) ≤ length ws.
Proof.
  induction ws as [|pc ws IH]; [done|]. rewrite !bind_cons, !length_app.
  destruct pc; simpl; lia.
Qed.

(** X6: bounded memory.  The queues never hold more than their configured
    capacity, and the jobs and results in flight are at most two more than
    the capacities and the number of workers together. *)
Theorem queues_bounded `{builtin2.Actors} `{Storage} cfg priorEpoch
    actorsRootIn actorsIn migrations deferredCodeIDs ctx store out0 sched s :
  run cfg priorEpoch actorsRootIn actorsIn migrations deferredCodeIDs sched
    (spawned cfg ctx store out0) = Some (Returns s) →
  (N.of_nat (length (buf s.(st_inputCh))) ≤ cfg.(JobQueueSize))%N
  ∧ (N.of_nat (length (buf s.(st_resultCh))) ≤ cfg.(ResultQueueSize))%N
  ∧ (N.of_nat (length (jobs_in_flight s) + length (results_in_flight s))
     ≤ cfg.(JobQueueSize) + cfg.(ResultQueueSize) + cfg.(MaxWorkers) + 2)%N.
Proof.
  intros [Hw Hi Hr Hf Hc Hg Hwd Hwr Hib Hrb]%Sync_run.
  split_and!; try done.
  unfold jobs_in_flight, results_in_flight. rewrite !length_app.
  pose proof (workers_hold_one (st_workers s)).
  assert (length (producer_jobs (st_producer s)) ≤ 1)
    by (destruct (st_producer s); simpl; lia).
  assert (length (writer_results (st_writer s)) ≤ 1)
    by (destruct (st_writer s); simpl; lia).
  lia.
Qed.

(** X7: after a run of MigrateStateTree that returns a root, every record of
    the output tree is the migration of the record of the input tree at the
    same address: that record is not deferred, the registry has a capability
    for its code, the output record has the code and the head which that
    capability returned for it, and its balance and call sequence number. *)
Theorem output_records_migrated `{builtin2.Actors} `{Storage}
    `{!StorageContract} migrations deferredCodeIDs ctx store actorsRootIn
    priorEpoch cfg sched root lg :
  MigrateStateTree_with migrations deferredCodeIDs ctx store actorsRootIn
    priorEpoch cfg sched = Some (Returns ((root, None), lg)) →
  ∃ (actorsIn : states2.Tree) s,
    LoadTree store actorsRootIn = Ok actorsIn
    ∧ run cfg priorEpoch actorsRootIn actorsIn migrations deferredCodeIDs
        sched (spawned cfg ctx store ∅) = Some (Returns s)
    ∧ Flush s.(st_store) s.(st_actorsOut) = (root, None)
    ∧ ∀ a y,
        s.(st_actorsOut) !! a = Some y →
        ∃ x m ctx' store',
          actorsIn !! a = Some x
          ∧ (x.(states2.Code) ∉ deferredCodeIDs)
          ∧ migrations !! x.(states2.Code) = Some m
          ∧ migrated priorEpoch m ctx' store' a x y.
Proof.
  intros (actorsIn & s & Hload & Hpos & Hrun & Hj & Hg & Hflush)
    %MigrateStateTree_with_success.
  exists actorsIn, s. split_and!; try done. intros a y Hy.
  pose proof (Inv_run _ _ _ _ _ _ _ _ _ _ Hrun) as Hinv.
  by apply (inv_out _ _ _ _ _ _ Hinv), is_result_migrated in Hy.
Qed.

(** X8: the first error wins.  Once the group has an error, every run that
    goes on to return returns no root and that same error, whatever fails
    afterwards. *)
Theorem first_error_is_returned `{builtin2.Actors} `{Storage} cfg priorEpoch
    actorsRootIn actorsIn migrations deferredCodeIDs ctx store out0
    sched1 sched2 s err r lg :
  run cfg priorEpoch actorsRootIn actorsIn migrations deferredCodeIDs sched1
    (spawned cfg ctx store out0) = Some (Returns s) →
  s.(st_grp) = Some err →
  pipeline cfg priorEpoch actorsRootIn actorsIn migrations deferredCodeIDs
    ctx store out0 (sched1 ++ sched2) = Some (Returns (r, lg)) →
  r = (cid.Undef, Some err).
Proof.
  intros Hrun Hg (s2 & Hrun2 & _ & Hr)%pipeline_returns.
  rewrite run_app, Hrun in Hrun2.
  by rewrite (run_group_sticky _ _ _ _ _ _ _ _ _ _ Hg Hrun2) in Hr.
Qed.

(** X9: every job in the pipeline is the record of the input tree at its
    address, which is not deferred, with the capability the registry has for
    its code (none, if it has none). *)
Theorem jobs_are_input_records `{builtin2.Actors} `{Storage}
    `{!StorageContract} cfg priorEpoch actorsRootIn
    (actorsIn : states2.Tree) migrations deferredCodeIDs ctx store sched s
    input :
  run cfg priorEpoch actorsRootIn actorsIn migrations deferredCodeIDs sched
    (spawned cfg ctx store ∅) = Some (Returns s) →
  input ∈ jobs_in_flight s →
  actorsIn !! input.(mi_Address) = Some input.(mi_Actor)
  ∧ (input.(mi_Actor).(states2.Code) ∉ deferredCodeIDs)
  ∧ input.(mi_StateMigration)
    = migrations !! input.(mi_Actor).(states2.Code).
Proof.
  intros Hinv%Inv_run Hin.
  pose proof (inv_jobs _ _ _ _ _ _ Hinv) as Hjobs.
  rewrite Forall_forall in Hjobs. by apply Hjobs.
Qed.

(** ** The progress monitor is passive *)

Section Monitor.
Context `{builtin2.Actors} `{Storage}.
Variable cfg : Config.
Variable priorEpoch : abi.ChainEpoch.
Variable actorsRootIn : cid.Cid.
Variable actorsIn : states2.Tree.
Variable migrations : gmap cid.Cid StateMigration.
Variable deferredCodeIDs : gset cid.Cid.

Lemma step_no_progress_logs a s :
  step (no_progress_logs cfg) priorEpoch actorsRootIn actorsIn
    migrations deferredCodeIDs a s
  = step cfg priorEpoch actorsRootIn actorsIn migrations deferredCodeIDs a s.
Proof. by destruct a. Qed.

Lemma run_no_progress_logs sched s :
  run (no_progress_logs cfg) priorEpoch actorsRootIn actorsIn
    migrations deferredCodeIDs sched s
  = run cfg priorEpoch actorsRootIn actorsIn migrations deferredCodeIDs
      sched s.
Proof.
  revert s. induction sched as [|a sched IH]; intros s; [done|].
  simpl. rewrite step_no_progress_logs.
  destruct (step _ _ _ _ _ _ a s) as [[s1|msg]|]; [apply IH|done|done].
Qed.

#[local] Abbreviation step :=
  (step cfg priorEpoch actorsRootIn actorsIn migrations deferredCodeIDs).
#[local] Abbreviation run :=
  (run cfg priorEpoch actorsRootIn actorsIn migrations deferredCodeIDs).

(** A move of another goroutine does not look at the monitor or at the
    log. *)
Lemma step_without_monitor mo a s :
  monitor_action a = false →
  step a (without_monitor mo s)
  = match step a s with
    | Some (Returns s') => Some (Returns (without_monitor mo s'))
    | o => o
    end.
Proof.
  intros Ha.
  destruct s as [ctx grp store out [ibuf iclosed] [rbuf rclosed]
                 wf jc dc lg mn p ws cl wr mo0].
  destruct a; try done; simpl.
  all: unfold step_main, step_producer, step_producer_handoff,
      step_producer_cancelled, step_worker, step_worker_handoff,
      step_worker_cancelled, step_closer, step_writer, step_cancel,
      grp_return; simpl.
  all: repeat case_match; simplify_eq; simpl; try done.
  all: by rewrite filter_app.
Qed.

(** A move of the monitor changes nothing but the monitor and the log. *)
Lemma step_monitor_only mo a s s' :
  monitor_action a = true → step a s = Some (Returns s') →
  without_monitor mo s' = without_monitor mo s.
Proof.
  intros Ha Hs. step_cases; try done.
  all: by rewrite filter_app, app_nil_r.
Qed.

Lemma monitor_never_panics a s msg :
  monitor_action a = true → step a s ≠ Some (Panics msg).
Proof. intros Ha Hs. by step_cases. Qed.

Lemma run_without_monitor mo sched s o :
  run sched s = Some o →
  run (filter (λ a, monitor_action a = false) sched) (without_monitor mo s)
  = Some (match o with
          | Returns s' => Returns (without_monitor mo s')
          | Panics msg => Panics msg
          end).
Proof.
  revert s. induction sched as [|a sched IH]; intros s Hrun.
  { simpl in Hrun. by simplify_eq. }
  rewrite run_cons in Hrun.
  destruct (monitor_action a) eqn:Ha.
  - rewrite filter_cons_False by by rewrite Ha.
    destruct (step a s) as [[s1|msg]|] eqn:Hs; [|by apply monitor_never_panics in Hs|done].
    rewrite <- (step_monitor_only mo _ _ _ Ha Hs). by apply IH.
  - rewrite filter_cons_True by done.
    rewrite run_cons, step_without_monitor by done.
    destruct (step a s) as [[s1|msg]|] eqn:Hs; [by apply IH|by simplify_eq|done].
Qed.
End Monitor.

(** X10: the progress monitor is passive.  Whatever MigrateStateTree does
    under a schedule, it does the same with the progress logs switched off
    under that schedule without the moves of the monitor: the same panic, or
    the same root and error, and the same lines logged but for those of the
    monitor. *)
Theorem monitor_is_passive `{builtin2.Actors} `{Storage} migrations
    deferredCodeIDs ctx store actorsRootIn priorEpoch cfg sched o :
  MigrateStateTree_with migrations deferredCodeIDs ctx store actorsRootIn
    priorEpoch cfg sched = Some o →
  MigrateStateTree_with migrations deferredCodeIDs ctx store actorsRootIn
    priorEpoch (no_progress_logs cfg)
    (filter (λ a, monitor_action a = false) sched)
  = Some (match o with
          | Returns (r, lg) =>
            Returns (r, filter (λ e, monitor_line e = false) lg)
          | Panics msg => Panics msg
          end).
Proof.
  unfold MigrateStateTree_with, MigrateStateTree_from. simpl. intros Hm.
  case_decide; [by simplify_eq|]. case_decide; [by simplify_eq|].
  destruct (LoadTree store actorsRootIn) as [actorsIn|err]; [|by simplify_eq].
  destruct (NewTree store) as [out0|err]; [|by simplify_eq].
  unfold pipeline in *. rewrite run_no_progress_logs.
  destruct (run _ _ _ _ _ _ sched _) as [o'|] eqn:Hrun; [|done].
  assert (spawned (no_progress_logs cfg) ctx store out0
          = without_monitor MOff (spawned cfg ctx store out0)) as -> by done.
  rewrite (run_without_monitor _ _ _ _ _ _ MOff _ _ _ Hrun).
  destruct o' as [s|msg]; [|by simplify_eq].
  destruct s as [ctx1 grp store1 out [ibuf iclosed] [rbuf rclosed]
                 wf jc dc lg mn p ws cl wr mo0].
  unfold joined in *. simpl in *.
  repeat case_match; simplify_eq; try done.
  by rewrite filter_app.
Qed.

(** ** The counters and the log *)

Lemma live_count_cons_live deferredCodeIDs a x l :
  x.(states2.Code) ∉ deferredCodeIDs →
  live_count deferredCodeIDs ((a, x) :: l)
  = (1 + live_count deferredCodeIDs l)%Z.
Proof.
  intros Hx. unfold live_count. rewrite filter_cons_True by done.
  simpl. lia.
Qed.

Lemma live_count_cons_deferred deferredCodeIDs a x l :
  x.(states2.Code) ∈ deferredCodeIDs →
  live_count deferredCodeIDs ((a, x) :: l) = live_count deferredCodeIDs l.
Proof.
  intros Hx. unfold live_count. rewrite filter_cons_False; [done|].
  simpl. by intros Hn.
Qed.

Lemma AddUint32_uint32 z : AddUint32 (uint32 z) 1 = uint32 (z + 1).
Proof. unfold AddUint32, uint32. by rewrite Z.add_mod_idemp_l. Qed.

Lemma int64_succ z : int64 (int64 z + 1) = int64 (z + 1).
Proof.
  unfold int64.
  replace ((z + 2 ^ 63) mod 2 ^ 64 - 2 ^ 63 + 1 + 2 ^ 63)%Z
    with ((z + 2 ^ 63) mod 2 ^ 64 + 1)%Z by lia.
  rewrite Z.add_mod_idemp_l by done. do 2 f_equal. lia.
Qed.

Lemma sum_list_with_WDone (f : WorkerPC → nat) ws :
  f WDone = 0 → Forall (λ pc, pc = WDone) ws → sum_list_with f ws = 0.
Proof.
  intros Hf. induction 1 as [|pc ws -> _ IH]; simpl; [done|]. lia.
Qed.

Lemma Forall_WDone_elem ws :
  Forall (λ pc, pc = WDone) ws → 0 < length ws → WDone ∈ ws.
Proof.
  intros Hall Hl. destruct ws as [|pc ws]; [simpl in Hl; lia|].
  apply Forall_cons in Hall as [-> _]. by left.
Qed.

Section TallyProofs.
Context `{builtin2.Actors} `{Storage}.
Variable cfg : Config.
Variable priorEpoch : abi.ChainEpoch.
Variable actorsRootIn : cid.Cid.
Variable actorsIn : states2.Tree.
Variable migrations : gmap cid.Cid StateMigration.
Variable deferredCodeIDs : gset cid.Cid.
Hypothesis workers_positive : (0 < cfg.(MaxWorkers))%N.

#[local] Abbreviation step :=
  (step cfg priorEpoch actorsRootIn actorsIn migrations deferredCodeIDs).
#[local] Abbreviation run :=
  (run cfg priorEpoch actorsRootIn actorsIn migrations deferredCodeIDs).
#[local] Abbreviation Tally := (Tally actorsRootIn actorsIn deferredCodeIDs).

Lemma Tally_step a s s' :
  Sync cfg s → (s.(st_grp) = None → Tally s) →
  step a s = Some (Returns s') →
  s'.(st_grp) = None → Tally s'.
Proof.
  intros [Hw Hi Hr Hf Hc Hg Hwd Hwr Hib Hrb] Ht Hs Hgrp. step_cases.
  all: try done.
  all: first [specialize (Ht eq_refl)|specialize (Ht Hgrp)].
  all: destruct Ht as [Hj Hd Hn Hlj Hlw].
  all: unfold jobs_created, jobs_done, results_written, jobs_visited in *.
  all: simpl in *.
  all: split_workers.
  all: rewrite ?sum_list_with_app in *; simpl in *.
  all: constructor; unfold jobs_created, jobs_done, results_written,
         jobs_visited; simpl.
  all: rewrite ?sum_list_with_app, ?length_app; simpl.
  all: try done.
  all: try (intros Hx; rewrite elem_of_app; left; by apply Hlj).
  all: try (intros Hx; rewrite elem_of_app; left; by apply Hlw).
  all: rewrite ?live_count_cons_deferred, ?live_count_cons_live in * by done.
  all: try (subst; try rewrite AddUint32_uint32; f_equal; lia).
  all: try (intros n0 Hn0; specialize (Hn _ Hn0); subst; f_equal; lia).
  all: try (intros n0 Hn0; simplify_eq;
            rewrite (Hn _ eq_refl), int64_succ; f_equal; lia).
  - (* the producer logs the number of jobs *)
    intros _. rewrite elem_of_app, list_elem_of_singleton. right.
    rewrite Hj. do 2 f_equal. unfold live_count. simpl. lia.
  - (* the writer logs the number of results *)
    intros _. rewrite elem_of_app, list_elem_of_singleton. right.
    destruct Hr as [Hr _]. specialize (Hc (Hr eq_refl)).
    destruct (Hwd (Forall_WDone_elem _ Hc ltac:(lia)))
      as [[e He]|[Hcl ->]]; [by simplify_eq|].
    apply Hi in Hcl as ->.
    rewrite (Hn _ eq_refl). simpl.
    rewrite (sum_list_with_WDone worker_holds _ eq_refl Hc).
    do 2 f_equal. unfold live_count. simpl. lia.
Qed.

Lemma Tally_spawned ctx store out0 :
  Tally (spawned cfg ctx store out0).
Proof.
  constructor; simpl; try done.
  - unfold jobs_created, jobs_visited, jobs_total. simpl.
    by rewrite Z.sub_diag.
  - unfold jobs_done, jobs_visited, jobs_total. simpl.
    rewrite Z.sub_diag.
    assert (∀ n, sum_list_with worker_uncounted (replicate n WRecv) = 0)
      as -> by (induction n; simpl; lia).
    done.
  - intros n [= <-]. unfold results_written, jobs_visited, jobs_total. simpl.
    rewrite Z.sub_diag.
    assert (∀ n, sum_list_with worker_holds (replicate n WRecv) = 0)
      as -> by (induction n; simpl; lia).
    done.
Qed.

Lemma Tally_run ctx store out0 sched s :
  run sched (spawned cfg ctx store out0) = Some (Returns s) →
  s.(st_grp) = None → Tally s.
Proof.
  intros Hrun.
  cut (Sync cfg s ∧ (s.(st_grp) = None → Tally s)); [by intros [_ ?]|].
  revert Hrun.
  apply (run_invariant _ _ _ _ _ _
           (λ s, Sync cfg s ∧ (s.(st_grp) = None → Tally s))).
  - intros a s1 s2 [Hsync Ht] Hs. split; [by eapply Sync_step|].
    by eapply Tally_step.
  - split; [apply Sync_spawned|]. intros _. apply Tally_spawned.
Qed.

(** When [grp.Wait] returns without an error, both counters hold the number
    of records that are not deferred. *)
Lemma Tally_joined ctx store out0 sched s :
  run sched (spawned cfg ctx store out0) = Some (Returns s) →
  joined s = true → s.(st_grp) = None →
  s.(st_jobCount) = uint32 (jobs_total actorsIn deferredCodeIDs)
  ∧ s.(st_doneCount) = uint32 (jobs_total actorsIn deferredCodeIDs)
  ∧ LogDoneCreatingJobs (uint32 (jobs_total actorsIn deferredCodeIDs))
      actorsRootIn ∈ s.(st_log)
  ∧ LogWriterWrote (int64 (jobs_total actorsIn deferredCodeIDs))
      ∈ s.(st_log).
Proof.
  intros Hrun Hj Hgrp.
  pose proof (Tally_run _ _ _ _ _ Hrun Hgrp) as [Hjc Hdc _ Hlj Hlw].
  pose proof (Sync_run _ _ _ _ _ _ _ _ _ _ _ Hrun)
    as [Hw _ _ _ _ _ Hwd _ _ _].
  unfold jobs_created, jobs_done, jobs_visited in *.
  destruct s as [ctx1 grp store1 out [ibuf iclosed] [rbuf rclosed]
                 wf jc dc lg mn p ws cl wr mo].
  unfold joined in Hj. simpl in *.
  repeat case_match; simplify_eq.
  apply forallb_is_WDone in Hj.
  destruct (Hwd (Forall_WDone_elem _ Hj ltac:(lia))) as [[e He]|[_ ->]];
    [done|].
  rewrite (sum_list_with_WDone worker_uncounted _ eq_refl Hj).
  change (live_count deferredCodeIDs []) with 0%Z. simpl.
  rewrite !Z.sub_0_r.
  split_and!; [done|done|by apply Hlj|by apply Hlw].
Qed.
End TallyProofs.

(** X11: what the counters report.  After a run of MigrateStateTree that
    returns a root, the line of the producer reports the number of records
    of the walk that are not deferred, as a uint32, the line of the writer
    reports that number as an int64, and the last line logged reports it as
    a uint32 again. *)
Theorem counters_report_totals `{builtin2.Actors} `{Storage} migrations
    deferredCodeIDs ctx store actorsRootIn priorEpoch cfg sched root lg :
  MigrateStateTree_with migrations deferredCodeIDs ctx store actorsRootIn
    priorEpoch cfg sched = Some (Returns ((root, None), lg)) →
  ∃ actorsIn lg',
    LoadTree store actorsRootIn = Ok actorsIn
    ∧ lg = lg' ++ [LogAllDone (uint32 (jobs_total actorsIn deferredCodeIDs))]
    ∧ LogDoneCreatingJobs (uint32 (jobs_total actorsIn deferredCodeIDs))
        actorsRootIn ∈ lg'
    ∧ LogWriterWrote (int64 (jobs_total actorsIn deferredCodeIDs)) ∈ lg'.
Proof.
  unfold MigrateStateTree_with, MigrateStateTree_from. intros Hm.
  case_decide as Hworkers; [done|]. case_decide; [done|].
  destruct (LoadTree store actorsRootIn) as [actorsIn|err]; [|done].
  destruct (NewTree store) as [out0|err]; [|done].
  unfold pipeline in Hm.
  destruct (run _ _ _ _ _ _ sched _) as [[s|msg]|] eqn:Hrun; [|done|done].
  destruct (joined s) eqn:Hj; [|done].
  destruct (st_grp s) eqn:Hgrp; [done|]. simplify_eq.
  assert (0 < MaxWorkers cfg)%N as Hpos by lia.
  destruct (Tally_joined _ _ _ _ _ _ Hpos _ _ _ _ _ Hrun Hj Hgrp)
    as (_ & Hdc & Hlj & Hlw).
  exists actorsIn, (st_log s). by rewrite Hdc.
Qed.

(** ** The errors returned, and the end of the monitor *)

Lemma migrateOneActor_Err `{builtin2.Actors} ctx store input priorEpoch
    store' e :
  migrateOneActor ctx store input priorEpoch = Returns (store', Err e) →
  ∃ m cause,
    input.(mi_StateMigration) = Some m
    ∧ (m.(MigrateState) ctx store
         {| address := input.(mi_Address);
            balance := input.(mi_Actor).(states2.Balance);
            head := input.(mi_Actor).(states2.Head);
            priorEpoch := priorEpoch |}).2.2
      = Some cause
    ∧ e = MigrationFailed
            (builtin2.ActorNameByCode input.(mi_Actor).(states2.Code))
            input.(mi_Address) cause.
Proof.
  unfold migrateOneActor. intros Hm.
  destruct (mi_StateMigration input) as [m|]; [|done].
  destruct (MigrateState m ctx store _) as [store1 [res err]] eqn:Hcall.
  destruct err as [cause|]; [|by destruct res].
  simplify_eq. exists m, cause. by rewrite Hcall.
Qed.

Section ProvenanceProofs.
Context `{builtin2.Actors} `{Storage} `{!StorageContract}.
Variable cfg : Config.
Variable priorEpoch : abi.ChainEpoch.
Variable actorsRootIn : cid.Cid.
Variable actorsIn : states2.Tree.
Variable migrations : gmap cid.Cid StateMigration.
Variable deferredCodeIDs : gset cid.Cid.
Variable ctx : Context.

#[local] Abbreviation step :=
  (step cfg priorEpoch actorsRootIn actorsIn migrations deferredCodeIDs).
#[local] Abbreviation run :=
  (run cfg priorEpoch actorsRootIn actorsIn migrations deferredCodeIDs).
#[local] Abbreviation Inv :=
  (Inv cfg priorEpoch actorsIn migrations deferredCodeIDs).
#[local] Abbreviation Origin :=
  (Origin priorEpoch actorsIn migrations ctx).

Lemma Origin_step a s s' :
  Inv s → Origin s → step a s = Some (Returns s') → Origin s'.
Proof.
  intros Hinv [Hctx Hgrp] Hs.
  pose proof (inv_jobs _ _ _ _ _ _ Hinv) as Hjobs.
  rewrite Forall_forall in Hjobs. clear Hinv.
  step_cases.
  all: constructor; simpl; intros e' He'; simplify_eq.
  all: try (by apply Hctx).
  all: try (by apply Hgrp).
  all: try (by left; apply Hctx).
  all: try (by right; left).
  all: try (by left; right; left).
  all: try (by left; right; right).
  all: try (by right; right; right; eauto).
  all: try (by right; left; right).
  all: try (by right; right).
  all: try match goal with
       | |- context_error _ (default Canceled ?c) =>
         destruct c; simpl; [by apply Hctx|by right; left]
       end.
  (* a worker returns the error of [migrateOneActor] *)
  match goal with
  | Hm : migrateOneActor _ _ ?input _ = Returns (_, Err _),
    Hw : _ !! _ = Some (WRun ?input) |- _ =>
    apply migrateOneActor_Err in Hm as (m & cause & Hsm & Hcall & ->);
    destruct (Hjobs input) as (Hin & _ & Hreg)
  end.
  { unfold jobs_in_flight. simpl. rewrite !elem_of_app. right. right.
    apply list_elem_of_bind. eexists. split; [|by eapply list_elem_of_lookup_2].
    simpl. by left. }
  right. right. left.
  eexists _, _, m, _, _, cause. split_and!; [done| |done|done].
  by rewrite <- Hreg.
Qed.
Lemma Origin_spawned store out0 : Origin (spawned cfg ctx store out0).
Proof. constructor; simpl; [by left|done]. Qed.

Lemma Origin_run store sched s :
  run sched (spawned cfg ctx store ∅) = Some (Returns s) → Origin s.
Proof.
  intros Hrun.
  cut (Inv s ∧ Origin s); [by intros [_ ?]|]. revert Hrun.
  apply (run_invariant _ _ _ _ _ _ (λ s, Inv s ∧ Origin s)).
  - intros a s1 s2 [Hinv Ho] Hs. split; [by eapply Inv_step|].
    by eapply Origin_step.
  - split; [apply Inv_spawned|apply Origin_spawned].
Qed.
End ProvenanceProofs.

(** X12: where the error of MigrateStateTree comes from.  An error comes
    with no root and is the configuration error, the error of [LoadTree] or
    of [NewTree], the error of the context, the error the walk of the input
    tree ends with, the error of [SetActor], or the error the capability of
    the registry returned for a record of the input tree, wrapped with the
    name of the actor and its address; or else it is what [Flush]
    returned. *)
Theorem error_provenance `{builtin2.Actors} `{Storage} `{!StorageContract}
    migrations deferredCodeIDs ctx store actorsRootIn priorEpoch cfg sched
    r e lg :
  MigrateStateTree_with migrations deferredCodeIDs ctx store actorsRootIn
    priorEpoch cfg sched = Some (Returns ((r, Some e), lg)) →
  (r = cid.Undef
   ∧ ((e = InvalidConfig cfg.(MaxWorkers) ∧ (cfg.(MaxWorkers) ≤ 0)%N)
      ∨ LoadTree store actorsRootIn = Err e
      ∨ NewTree store = Err e
      ∨ ∃ actorsIn,
          LoadTree store actorsRootIn = Ok actorsIn
          ∧ group_error priorEpoch actorsIn migrations ctx e))
  ∨ ∃ store' out, Flush store' out = (r, Some e).
Proof.
  unfold MigrateStateTree_with, MigrateStateTree_from. intros Hm.
  case_decide as Hworkers; [left; simplify_eq; auto|].
  case_decide as Hsize; [done|].
  destruct (LoadTree store actorsRootIn) as [actorsIn|err] eqn:Hload;
    [|left; simplify_eq; auto].
  destruct (NewTree store) as [out0|err] eqn:Hnew;
    [|left; simplify_eq; auto].
  apply pipeline_returns in Hm as (s & Hrun & _ & Hr).
  destruct (st_grp s) as [err|] eqn:Hgrp.
  - left. simplify_eq. split; [done|]. do 3 right. exists actorsIn.
    split; [done|]. apply NewTree_empty in Hnew as ->.
    by apply (origin_grp _ _ _ _ _
                (Origin_run _ _ _ _ _ _ _ _ _ _ Hrun)).
  - right. by exists (st_store s), (st_actorsOut s).
Qed.

(** X13: the progress monitor does not outlive the migration for ever.  Once
    [grp.Wait] can return, or once the group has failed, the monitor has
    returned, or was never started, or returns by its own moves. *)
Theorem monitor_can_stop `{builtin2.Actors} `{Storage} cfg priorEpoch
    actorsRootIn actorsIn migrations deferredCodeIDs ctx store out0 sched s :
  run cfg priorEpoch actorsRootIn actorsIn migrations deferredCodeIDs sched
    (spawned cfg ctx store out0) = Some (Returns s) →
  joined s = true ∨ is_Some s.(st_grp) →
  ∃ sched' s',
    forallb monitor_action sched' = true
    ∧ run cfg priorEpoch actorsRootIn actorsIn migrations deferredCodeIDs
        sched' s = Some (Returns s')
    ∧ (s'.(st_monitor) = MDone ∨ s'.(st_monitor) = MOff).
Proof.
  intros [Hw Hi Hr Hf Hc Hg Hwd Hwr Hib Hrb]%Sync_run Hend.
  destruct s as [ctx1 grp store1 out [ibuf iclosed] [rbuf rclosed]
                 wf jc dc lg mn p ws cl wr mo].
  simpl in *.
  assert (wf || bool_decide (is_Some ctx1) = true) as Hstop.
  { destruct Hend as [Hj|Hgrp].
    - unfold joined in Hj. simpl in Hj. repeat case_match; simplify_eq.
      destruct Hr as [_ Hr]. by rewrite (Hr eq_refl).
    - rewrite (bool_decide_eq_true_2 _ (Hg Hgrp)). apply orb_true_r. }
  destruct mo.
  - eexists [], _. split_and!; [done..|by right].
  - eexists [AMonitorStop], _. simpl. rewrite Hstop.
    split_and!; [done..|by left].
  - eexists [AMonitor; AMonitorStop], _. simpl. rewrite Hstop.
    split_and!; [done..|by left].
  - eexists [], _. split_and!; [done..|by left].
Qed.

(** ** The further properties on the concrete world *)

(** The state a schedule leads to, by evaluation. *)
Ltac evaluated s Hrun :=
  match goal with
  | |- context [?r = Some (Returns _)] =>
    assert (∃ s, r = Some (Returns s)) as [s Hrun]
      by (eexists; vm_compute; reflexivity)
  end.


Lemma no_deadlock_witness :
  (0 < (config 2 0 0).(MaxWorkers))%N
  ∧ ∃ s,
      run (config 2 0 0) 7 "root4" tree4 migrations deferredCodeIDs
        both_handed (spawned (config 2 0 0) background ∅ ∅)
      = Some (Returns s)
      ∧ (joined s = true
         ∨ ∃ a,
             group_action a = true
             ∧ is_Some (step (config 2 0 0) 7 "root4" tree4 migrations
                          deferredCodeIDs a s)).
Proof.
  assert (0 < (config 2 0 0).(MaxWorkers))%N as Hpos by reflexivity.
  evaluated s Hrun.
  split; [exact Hpos|]. exists s. split; [exact Hrun|].
  exact (no_deadlock (config 2 0 0) 7 "root4" tree4 migrations
           deferredCodeIDs background ∅ ∅ both_handed s Hpos Hrun).
Defined.


Lemma run_can_complete_witness :
  (0 < (config 2 0 0).(MaxWorkers))%N
  ∧ (∃ s,
       run (config 2 0 0) 7 "root4" tree4 migrations deferredCodeIDs
         both_handed (spawned (config 2 0 0) background ∅ ∅)
       = Some (Returns s))
  ∧ ∃ sched',
      forallb group_action sched' = true
      ∧ is_Some (pipeline (config 2 0 0) 7 "root4" tree4 migrations
                   deferredCodeIDs background ∅ ∅ (both_handed ++ sched')).
Proof.
  assert (0 < (config 2 0 0).(MaxWorkers))%N as Hpos by reflexivity.
  evaluated s Hrun.
  split; [exact Hpos|]. split; [by exists s|].
  exact (run_can_complete (config 2 0 0) 7 "root4" tree4 migrations
           deferredCodeIDs background ∅ ∅ both_handed s Hpos Hrun).
Defined.


Lemma queues_bounded_witness :
  ∃ s,
    run (config 2 4 4) 7 "root1" tree1 migrations deferredCodeIDs
      (take 9 buffered) (spawned (config 2 4 4) background ∅ ∅)
    = Some (Returns s)
    ∧ (N.of_nat (length (buf s.(st_inputCh)))
       ≤ (config 2 4 4).(JobQueueSize))%N
    ∧ (N.of_nat (length (buf s.(st_resultCh)))
       ≤ (config 2 4 4).(ResultQueueSize))%N
    ∧ (N.of_nat (length (jobs_in_flight s) + length (results_in_flight s))
       ≤ (config 2 4 4).(JobQueueSize) + (config 2 4 4).(ResultQueueSize)
         + (config 2 4 4).(MaxWorkers) + 2)%N.
Proof.
  evaluated s Hrun. exists s. split; [exact Hrun|].
  exact (queues_bounded (config 2 4 4) 7 "root1" tree1 migrations
           deferredCodeIDs background ∅ ∅ (take 9 buffered) s Hrun).
Defined.

Lemma output_records_migrated_witness :
  MigrateStateTree_with migrations deferredCodeIDs background ∅ "root1" 7
    (config 1 0 0) unbuffered
  = Some (Returns
            (("A1:fil/3/account:S1;A2:fil/3/storageminer:S2';", None),
             [LogStartedWorkers 1; LogWriterStarted; LogCreatingJobs "root1";
              LogDoneCreatingJobs 2 "root1"; LogWorkerDone 0;
              LogAllWorkersDone; LogWriterWrote 2; LogAllDone 2]))
  ∧ ∃ (actorsIn : states2.Tree) s,
      LoadTree ∅ "root1" = Ok actorsIn
      ∧ run (config 1 0 0) 7 "root1" actorsIn migrations deferredCodeIDs
          unbuffered (spawned (config 1 0 0) background ∅ ∅)
        = Some (Returns s)
      ∧ Flush s.(st_store) s.(st_actorsOut)
        = ("A1:fil/3/account:S1;A2:fil/3/storageminer:S2';", None)
      ∧ ∀ a y,
          s.(st_actorsOut) !! a = Some y →
          ∃ x m ctx' store',
            actorsIn !! a = Some x
            ∧ (x.(states2.Code) ∉ deferredCodeIDs)
            ∧ migrations !! x.(states2.Code) = Some m
            ∧ migrated 7 m ctx' store' a x y.
Proof.
  match goal with
  | |- ?hyp ∧ _ => assert hyp as Hrun by (vm_compute; reflexivity)
  end.
  split; [exact Hrun|].
  exact (output_records_migrated migrations deferredCodeIDs background ∅
           "root1" 7 (config 1 0 0) unbuffered _ _ Hrun).
Defined.

Lemma first_error_is_returned_witness :
  let failure :=
    MigrationFailed "fil/2/multisig" "A2" (External "bad state") in
  ∃ s,
    run (config 2 0 0) 7 "root4" tree4 migrations deferredCodeIDs
      (both_handed ++ [AWorker 1]) (spawned (config 2 0 0) background ∅ ∅)
    = Some (Returns s)
    ∧ s.(st_grp) = Some failure
    ∧ pipeline (config 2 0 0) 7 "root4" tree4 migrations deferredCodeIDs
        background ∅ ∅ ((both_handed ++ [AWorker 1]) ++ wind_down)
      = Some (Returns
                ((cid.Undef, Some failure),
                 [LogStartedWorkers 2; LogWriterStarted;
                  LogCreatingJobs "root4"; LogDoneCreatingJobs 2 "root4";
                  LogAllWorkersDone; LogWriterWrote 0]))
    ∧ (cid.Undef, Some failure) = (cid.Undef, Some failure).
Proof.
  intros failure.
  evaluated s Hrun. exists s.
  assert (s.(st_grp) = Some failure) as Hgrp.
  { vm_compute in Hrun. injection Hrun as <-. vm_compute. reflexivity. }
  match goal with
  | |- _ ∧ _ ∧ ?ret ∧ _ => assert ret as Hret by (vm_compute; reflexivity)
  end.
  split; [exact Hrun|]. split; [exact Hgrp|]. split; [exact Hret|].
  exact (first_error_is_returned (config 2 0 0) 7 "root4" tree4 migrations
           deferredCodeIDs background ∅ ∅ (both_handed ++ [AWorker 1])
           wind_down s failure _ _ Hrun Hgrp Hret).
Defined.

Lemma jobs_are_input_records_witness :
  let job :=
    {| mi_Address := "A2";
       mi_Actor := actor "fil/2/multisig" "bad" 2 0;
       mi_StateMigration := Some multisigMigrator |} in
  ∃ s,
    run (config 2 0 0) 7 "root4" tree4 migrations deferredCodeIDs
      both_handed (spawned (config 2 0 0) background ∅ ∅)
    = Some (Returns s)
    ∧ job ∈ jobs_in_flight s
    ∧ tree4 !! job.(mi_Address) = Some job.(mi_Actor)
    ∧ (job.(mi_Actor).(states2.Code) ∉ deferredCodeIDs)
    ∧ job.(mi_StateMigration)
      = migrations !! job.(mi_Actor).(states2.Code).
Proof.
  intros job.
  evaluated s Hrun. exists s.
  assert (job ∈ jobs_in_flight s) as Hjob.
  { vm_compute in Hrun. injection Hrun as <-. vm_compute. right. left. }
  split; [exact Hrun|]. split; [exact Hjob|].
  exact (jobs_are_input_records (config 2 0 0) 7 "root4" tree4 migrations
           deferredCodeIDs background ∅ both_handed s job Hrun Hjob).
Defined.

Lemma monitor_is_passive_witness :
  let root := "A1:fil/3/account:S1;A2:fil/3/storageminer:S2';" in
  let lg :=
    [LogProgress 0 0 0; LogStartedWorkers 1; LogWriterStarted;
     LogCreatingJobs "root1"; LogDoneCreatingJobs 2 "root1";
     LogWorkerDone 0; LogAllWorkersDone; LogWriterWrote 2; LogMonitorDone;
     LogAllDone 2] in
  MigrateStateTree_with migrations deferredCodeIDs background ∅ "root1" 7
    (monitored 1 0 0) ([AMonitor; AMonitor] ++ unbuffered ++ [AMonitorStop])
  = Some (Returns ((root, None), lg))
  ∧ MigrateStateTree_with migrations deferredCodeIDs background ∅ "root1" 7
      (no_progress_logs (monitored 1 0 0))
      (filter (λ a, monitor_action a = false)
         ([AMonitor; AMonitor] ++ unbuffered ++ [AMonitorStop]))
    = Some (Returns
              ((root, None), filter (λ e, monitor_line e = false) lg)).
Proof.
  intros root lg.
  match goal with
  | |- ?hyp ∧ _ => assert hyp as Hrun by (vm_compute; reflexivity)
  end.
  split; [exact Hrun|].
  exact (monitor_is_passive migrations deferredCodeIDs background ∅ "root1"
           7 (monitored 1 0 0)
           ([AMonitor; AMonitor] ++ unbuffered ++ [AMonitorStop])
           (Returns ((root, None), lg)) Hrun).
Defined.

Lemma counters_report_totals_witness :
  MigrateStateTree_with migrations deferredCodeIDs background ∅ "root1" 7
    (config 1 0 0) unbuffered
  = Some (Returns
            (("A1:fil/3/account:S1;A2:fil/3/storageminer:S2';", None),
             [LogStartedWorkers 1; LogWriterStarted; LogCreatingJobs "root1";
              LogDoneCreatingJobs 2 "root1"; LogWorkerDone 0;
              LogAllWorkersDone; LogWriterWrote 2; LogAllDone 2]))
  ∧ ∃ (actorsIn : states2.Tree) lg',
      LoadTree ∅ "root1" = Ok actorsIn
      ∧ [LogStartedWorkers 1; LogWriterStarted; LogCreatingJobs "root1";
         LogDoneCreatingJobs 2 "root1"; LogWorkerDone 0;
         LogAllWorkersDone; LogWriterWrote 2; LogAllDone 2]
        = lg' ++ [LogAllDone (uint32 (jobs_total actorsIn deferredCodeIDs))]
      ∧ LogDoneCreatingJobs (uint32 (jobs_total actorsIn deferredCodeIDs))
          "root1" ∈ lg'
      ∧ LogWriterWrote (int64 (jobs_total actorsIn deferredCodeIDs)) ∈ lg'.
Proof.
  match goal with
  | |- ?hyp ∧ _ => assert hyp as Hrun by (vm_compute; reflexivity)
  end.
  split; [exact Hrun|].
  exact (counters_report_totals migrations deferredCodeIDs background ∅
           "root1" 7 (config 1 0 0) unbuffered _ _ Hrun).
Defined.

Lemma error_provenance_witness :
  let failure :=
    MigrationFailed "fil/2/multisig" "A2" (External "bad state") in
  MigrateStateTree_with migrations deferredCodeIDs background ∅ "root4" 7
    (config 2 0 0) (both_handed ++ AWorker 1 :: wind_down)
  = Some (Returns
            ((cid.Undef, Some failure),
             [LogStartedWorkers 2; LogWriterStarted;
              LogCreatingJobs "root4"; LogDoneCreatingJobs 2 "root4";
              LogAllWorkersDone; LogWriterWrote 0]))
  ∧ ((cid.Undef = cid.Undef
      ∧ ((failure = InvalidConfig (config 2 0 0).(MaxWorkers)
          ∧ ((config 2 0 0).(MaxWorkers) ≤ 0)%N)
         ∨ LoadTree ∅ "root4" = Err failure
         ∨ NewTree ∅ = Err failure
         ∨ ∃ actorsIn,
             LoadTree ∅ "root4" = Ok actorsIn
             ∧ group_error 7 actorsIn migrations background failure))
     ∨ ∃ store' out, Flush store' out = (cid.Undef, Some failure)).
Proof.
  intros failure.
  match goal with
  | |- ?hyp ∧ _ => assert hyp as Hrun by (vm_compute; reflexivity)
  end.
  split; [exact Hrun|].
  exact (error_provenance migrations deferredCodeIDs background ∅ "root4" 7
           (config 2 0 0) (both_handed ++ AWorker 1 :: wind_down)
           cid.Undef failure _ Hrun).
Defined.

Lemma monitor_can_stop_witness :
  ∃ s,
    run (monitored 1 0 0) 7 "root1" tree1 migrations deferredCodeIDs
      (AMonitor :: unbuffered) (spawned (monitored 1 0 0) background ∅ ∅)
    = Some (Returns s)
    ∧ (joined s = true ∨ is_Some s.(st_grp))
    ∧ ∃ sched' s',
        forallb monitor_action sched' = true
        ∧ run (monitored 1 0 0) 7 "root1" tree1 migrations deferredCodeIDs
            sched' s = Some (Returns s')
        ∧ (s'.(st_monitor) = MDone ∨ s'.(st_monitor) = MOff).
Proof.
  evaluated s Hrun. exists s.
  assert (joined s = true ∨ is_Some s.(st_grp)) as Hend.
  { vm_compute in Hrun. injection Hrun as <-. left. vm_compute. reflexivity. }
  split; [exact Hrun|]. split; [exact Hend|].
  exact (monitor_can_stop (monitored 1 0 0) 7 "root1" tree1 migrations
           deferredCodeIDs background ∅ ∅ (AMonitor :: unbuffered) s
           Hrun Hend).
Defined.
